(** * The zodipus query engine ([queryEngine.ts]): a shallow embedding

    [createRegistry] takes a registry of Zod schemas and the relation
    metadata of every model; [createQuery] binds a model name; the
    returned builder takes a query object and returns its executor: the
    Prisma query and the four parsers.

    The parsers write into JavaScript objects ([result[key] = ...]) and,
    under [select], [result] is the very object that was passed in, so
    values live in a store and are handed around by reference. Validator
    calls are recorded in a trace, which is what lets a statement say
    that a validator was, or was not, invoked. *)

From Stdlib Require Import ZArith.
From stdpp Require Import base gmap list strings option.

Set Warnings "-register-all".

Local Open Scope string_scope.
Local Open Scope list_scope.

(** ** Values and the object store *)

Definition loc := nat.

Inductive Value : Type :=
| VUndefined
| VNull
| VBool (b : bool)
| VNum (n : Z)
| VStr (s : string)
| VRef (l : loc).

#[global] Instance Value_eq_dec : EqDecision Value.
Proof. solve_decision. Defined.

(** An object of the store: its named properties and, for an array, its
    elements; whether properties can be added to it, and which of its
    properties cannot be written ([Object.freeze], [Object.seal],
    [Object.preventExtensions], [writable: false]). Properties are the
    object's own data properties. The keys of a query other than [select]
    are relation names, and a relation name is taken not to be a name that
    JavaScript predefines on objects, arrays or functions ([constructor],
    [length], [caller], indices, ...); model names are any strings, see
    [modelSchemaOf]. *)
Record Obj : Type := mkObj {
  props : gmap string Value;
  elems : option (list Value);
  extensible : bool;
  readonly : gset string
}.

Definition plainObject (m : gmap string Value) : Obj := mkObj m None true ∅.
Definition arrayObject (xs : list Value) : Obj := mkObj ∅ (Some xs) true ∅.

(** Whether [o[key] = v] is allowed: an own property must be writable, a
    new one needs an extensible object. *)
Definition writable (o : Obj) (key : string) : bool :=
  bool_decide (key ∉ readonly o)
  && (bool_decide (is_Some (props o !! key)) || extensible o).

(** The store grows at its end: a new object gets the next index. *)
Abbreviation Heap := (list Obj).

(** [typeof v] *)
Definition typeof (v : Value) : string :=
  match v with
  | VUndefined => "undefined"
  | VNull => "object"
  | VBool _ => "boolean"
  | VNum _ => "number"
  | VStr _ => "string"
  | VRef _ => "object"
  end.

Definition isNull (v : Value) : bool :=
  match v with VNull => true | _ => false end.

(** [key in v], for [v] an object *)
Definition hasProperty (h : Heap) (v : Value) (key : string) : bool :=
  match v with
  | VRef l =>
      match h !! l with
      | Some o => bool_decide (is_Some (props o !! key))
      | None => false
      end
  | _ => false
  end.

(** [v[key]] *)
Definition getProp (h : Heap) (v : Value) (key : string) : Value :=
  match v with
  | VRef l =>
      match h !! l with
      | Some o => default VUndefined (props o !! key)
      | None => VUndefined
      end
  | _ => VUndefined
  end.

(** The elements of [v] when [Array.isArray(v)] *)
Definition asArray (h : Heap) (v : Value) : option (list Value) :=
  match v with
  | VRef l => o ← h !! l; elems o
  | _ => None
  end.

(** ** Errors *)

Record ValidationErrorContext : Type := mkContext {
  ctx_model : string;
  ctx_field : option string;
  ctx_expected : option string;
  ctx_received : option string;
  ctx_path : option (list string)
}.

(** What a [throw] carries. [NonError] is a thrown value that is not an
    [Error], kept by its [String(...)] rendering; [Unprintable] is a
    thrown value that is not an [Error] and on which [String(...)] itself
    throws [raised] (for [Object.create(null)], a [TypeError];
    for an object with a throwing [toString], what that throws);
    [PlainError] is [new Error(message)]. *)
Inductive Thrown : Type :=
| ZodipusValidationError (message : string) (context : ValidationErrorContext)
| TypeError (message : string)
| ZodError (issues : string)
| NonError (rendered : string)
| Unprintable (raised : Thrown)
| PlainError (message : string).

(** The one-character string holding a double quote *)
Definition dquote : string :=
  String (Ascii.Ascii false true false false false true false false) EmptyString.

Inductive Completion (A : Type) : Type :=
| Normal (a : A)
| Throw (e : Thrown).
Arguments Normal {A} a.
Arguments Throw {A} e.

(** ** Validators and configuration *)

(** A Zod schema's [parse]: it reads the store and its argument, and
    either throws or returns a value together with the objects it built,
    which are appended to the store. It cannot write to an existing
    object. *)
Definition Schema := Heap -> Value -> Completion (list Obj * Value).

Inductive RelationConfig : Type :=
| mkRelationConfig (type : string) (isArray : bool)
    (relations : option (list (string * RelationConfig))).

Definition rel_type (r : RelationConfig) : string :=
  match r with mkRelationConfig t _ _ => t end.
Definition rel_isArray (r : RelationConfig) : bool :=
  match r with mkRelationConfig _ a _ => a end.
Definition rel_relations (r : RelationConfig)
  : option (list (string * RelationConfig)) :=
  match r with mkRelationConfig _ _ n => n end.

Record Config : Type := mkConfig {
  models : gmap string Schema;
  relations : gmap string (gmap string RelationConfig)
}.

(** The names every plain object inherits from [Object.prototype] *)
Definition objectPrototypeNames : list string :=
  [ "constructor"; "hasOwnProperty"; "isPrototypeOf"; "propertyIsEnumerable";
    "toLocaleString"; "toString"; "valueOf"; "__proto__";
    "__defineGetter__"; "__defineSetter__";
    "__lookupGetter__"; "__lookupSetter__" ].

(** What [o[name]] finds on a plain object: an own property, a member of
    [Object.prototype] (a function, or the prototype itself for
    [__proto__]: truthy, and without a [parse] method), or nothing. *)
Inductive Member (A : Type) : Type :=
| Own (a : A)
| Inherited
| Missing.
Arguments Own {A} a.
Arguments Inherited {A}.
Arguments Missing {A}.

(** [config.models[name]] *)
Definition modelSchemaOf (config : Config) (name : string) : Member Schema :=
  match models config !! name with
  | Some schema => Own schema
  | None =>
      if bool_decide (name ∈ objectPrototypeNames) then Inherited else Missing
  end.

(** ** Query objects *)

(** The query passed to the builder is a JavaScript object literal:
    entries in insertion order. *)
Inductive QueryValue : Type :=
| QUndefined
| QBool (b : bool)
| QObject (entries : list (string * QueryValue)).

Abbreviation QueryObject := (list (string * QueryValue)).

(** [Object.entries(o)] and [Object.keys(o)] *)
Definition Object_entries (o : QueryObject) : list (string * QueryValue) := o.
Definition Object_keys (o : QueryObject) : list string := map fst o.

(** [key in o] *)
Definition qIn (key : string) (o : QueryObject) : bool :=
  existsb (fun e => String.eqb (fst e) key) o.

(** [o[key]] *)
Fixpoint qGet (o : QueryObject) (key : string) : QueryValue :=
  match o with
  | [] => QUndefined
  | (k, v) :: rest => if String.eqb k key then v else qGet rest key
  end.

Definition truthy (v : QueryValue) : bool :=
  match v with
  | QUndefined => false
  | QBool b => b
  | QObject _ => true
  end.

(** [o[key] = v] on an object literal: overwrite in place or append. *)
Fixpoint qSet (key : string) (v : QueryValue) (o : QueryObject) : QueryObject :=
  match o with
  | [] => [(key, v)]
  | (k, w) :: rest =>
      if String.eqb k key then (k, v) :: rest else (k, w) :: qSet key v rest
  end.

(** [{...a, ...b}] *)
Definition spread (a b : QueryObject) : QueryObject :=
  fold_left (fun acc e => qSet (fst e) (snd e) acc) b a.

(** [Object.fromEntries(es)] *)
Definition fromEntries (es : list (string * QueryValue)) : QueryObject :=
  spread [] es.

(** The own enumerable properties of a query value, as [...v] spreads
    them: none for [undefined] and booleans. *)
Definition ownEntries (v : QueryValue) : QueryObject :=
  match v with
  | QObject es => es
  | _ => []
  end.

(** [{ select: ... }] or [{ include: ... }] *)
Inductive CompiledQuery : Type :=
| CSelect (select : QueryValue)
| CInclude (include : QueryValue).

(** [{ success: true, data }] or [{ success: false, error }] *)
Inductive SafeParseResult : Type :=
| Success (data : Value)
| Failure (error : Thrown).

(** ** The state of a run: the store and the validator calls so far *)

Inductive Event : Type :=
| EvParse (schema : string) (arg : Value).

Record State : Type := mkState {
  heap : Heap;
  trace : list Event
}.

Definition M (A : Type) : Type := State -> Completion A * State.

Definition ret {A} (a : A) : M A := fun st => (Normal a, st).

Definition bind {A B} (m : M A) (k : A -> M B) : M B :=
  fun st =>
    match m st with
    | (Normal a, st') => k a st'
    | (Throw e, st') => (Throw e, st')
    end.

Definition throw {A} (e : Thrown) : M A := fun st => (Throw e, st).

Definition getHeap : M Heap := fun st => (Normal (heap st), st).

(** [try { m } catch (error) { handler(error) }] *)
Definition tryCatch {A} (m : M A) (handler : Thrown -> M A) : M A :=
  fun st =>
    match m st with
    | (Normal a, st') => (Normal a, st')
    | (Throw e, st') => handler e st'
    end.

Declare Scope js_scope.
Delimit Scope js_scope with js.
Notation "x <- m ;; k" := (bind m (fun x => k))
  (at level 100, m at next level, right associativity) : js_scope.
Notation "m ;;; k" := (bind m (fun _ => k))
  (at level 100, right associativity) : js_scope.
Local Open Scope js_scope.

(** [schema.parse(v)], recorded under the name the schema was looked up
    by. *)
Definition callParse (name : string) (schema : Schema) (v : Value) : M Value :=
  fun st =>
    let tr := trace st ++ [EvParse name v] in
    match schema (heap st) v with
    | Normal (new, r) => (Normal r, mkState (heap st ++ new) tr)
    | Throw e => (Throw e, mkState (heap st) tr)
    end.

(** A new array holding [ys] *)
Definition allocArray (ys : list Value) : M Value :=
  fun st =>
    (Normal (VRef (length (heap st))),
     mkState (heap st ++ [arrayObject ys]) (trace st)).

(** The object [o] with its property [key] set to [v] *)
Definition writeProp (o : Obj) (key : string) (v : Value) : Obj :=
  mkObj (<[key := v]> (props o)) (elems o) (extensible o) (readonly o).

(** The [TypeError] of a refused assignment, with the message of V8 *)
Definition assignmentRefused (o : Obj) (key : string) : Thrown :=
  if bool_decide (key ∈ readonly o) then
    TypeError
      ("Cannot assign to read only property '" ++ key ++ "' of object '"
       ++ match elems o with
          | Some _ => "[object Array]"
          | None => "#<Object>"
          end
       ++ "'")
  else
    TypeError ("Cannot add property " ++ key ++ ", object is not extensible").

(** [target[key] = v] in strict mode: a [TypeError] unless [target] is an
    object that allows the assignment. *)
Definition setProp (target : Value) (key : string) (v : Value) : M unit :=
  fun st =>
    match target with
    | VRef l =>
        match heap st !! l with
        | Some o =>
            if writable o key then
              (Normal tt,
               mkState (<[l := writeProp o key v]> (heap st)) (trace st))
            else (Throw (assignmentRefused o key), st)
        | None => (Throw (TypeError "Cannot set properties of a missing object"), st)
        end
    | VUndefined | VNull =>
        (Throw (TypeError "Cannot set properties of undefined or null"), st)
    | _ => (Throw (TypeError "Cannot create property on a primitive"), st)
    end.

(** [xs.map(f)], without the allocation of the resulting array: the
    callback runs on every element in index order and the first throw
    ends the loop. *)
Fixpoint Array_map (f : Value -> M Value) (xs : list Value) : M (list Value) :=
  match xs with
  | [] => ret []
  | x :: rest =>
      y <- f x ;;
      ys <- Array_map f rest ;;
      ret (y :: ys)
  end.

(** [for (const e of es) body(e)] *)
Fixpoint forOf {A} (body : A -> M unit) (es : list A) : M unit :=
  match es with
  | [] => ret tt
  | e :: rest => body e ;;; forOf body rest
  end.

(** ** [createRegistry(config).createQuery(model)(query)] *)

Section Executor.
Variable config : Config.
Variable model : string.
Variable query : QueryObject.

(** [Object.fromEntries(Object.entries(query).filter(([key]) => key !== 'select'))] *)
Definition relationEntries : QueryObject :=
  fromEntries (filter (fun e => fst e ≠ "select") (Object_entries query)).

(** ['select' in query && query.select] *)
Definition hasSelect : bool :=
  qIn "select" query && truthy (qGet query "select").

(** [Object.keys(relationEntries).length > 0] *)
Definition hasRelations : bool :=
  bool_decide (0 < length (Object_keys relationEntries)).

(** [query.select] is truthy wherever it is read, so [?? {}] never
    takes its right-hand side. *)
Definition selectQuery : QueryValue :=
  if hasSelect && hasRelations then
    QObject (spread (ownEntries (qGet query "select")) relationEntries)
  else if hasSelect && negb hasRelations then qGet query "select"
  else if negb hasSelect && hasRelations then QObject []
  else QObject [].

Definition includeQuery : QueryValue :=
  if hasSelect && hasRelations then QObject []
  else if hasSelect && negb hasRelations then QObject []
  else if negb hasSelect && hasRelations then QObject relationEntries
  else QObject [].

(** The [query] field of the executor *)
Definition compiledQuery : CompiledQuery :=
  if hasSelect then CSelect selectQuery else CInclude includeQuery.

(** [typeof value === 'object' && value !== null &&
     ('select' in value || 'include' in value)] *)
Definition relationHasSelectOrInclude (value : QueryValue) : bool :=
  match value with
  | QObject es => qIn "select" es || qIn "include" es
  | _ => false
  end.

(** [modelRelations[key]?.type], [None] when it is falsy *)
Definition relationTypeOf (modelRelations : gmap string RelationConfig)
    (key : string) : option string :=
  match modelRelations !! key with
  | Some r => if String.eqb (rel_type r) "" then None else Some (rel_type r)
  | None => None
  end.

Definition schemaNotFoundForRelation (relationType key : string) : Thrown :=
  ZodipusValidationError "Model schema not found for relation"
    (mkContext relationType (Some key) None None (Some [model; key])).

(** [schema.parse(...)] on a member of [Object.prototype] *)
Definition parseIsNotAFunction (variable : string) : Thrown :=
  TypeError (variable ++ ".parse is not a function").

(** The callback of the [map] over an array-valued relation *)
Definition relationCallback (key relationType : string)
    (hasSelectOrInclude : bool) (rel : Value) : M Value :=
  if hasSelectOrInclude then ret rel
  else
    match modelSchemaOf config relationType with
    | Missing => throw (schemaNotFoundForRelation relationType key)
    | Inherited => throw (parseIsNotAFunction "relationSchema")
    | Own relationSchema => callParse relationType relationSchema rel
    end.

(** The body of the loop over [Object.entries(query)]. The two lookups
    [config.relations[model]] and [modelRelations[key]] read own
    properties. What they could find on [Object.prototype] instead gives
    the same [continue] as a missing entry: a member of
    [Object.prototype] has no [type], and no property at all under a
    relation name. *)
Definition parseRelationEntry (item result : Value)
    (entry : string * QueryValue) : M unit :=
  let key := fst entry in
  let value := snd entry in
  if String.eqb key "select" then ret tt
  else
    h <- getHeap ;;
    if String.eqb (typeof item) "object" && negb (isNull item)
       && hasProperty h item key
    then
      match relations config !! model with
      | None => ret tt
      | Some modelRelations =>
          match relationTypeOf modelRelations key with
          | None => ret tt
          | Some relationType =>
              let hasSelectOrInclude := relationHasSelectOrInclude value in
              match asArray h (getProp h item key) with
              | Some rels =>
                  mapped <- Array_map
                    (relationCallback key relationType hasSelectOrInclude) rels ;;
                  arr <- allocArray mapped ;;
                  setProp result key arr
              | None =>
                  let relData := getProp h item key in
                  if isNull relData then setProp result key VNull
                  else if hasSelectOrInclude then setProp result key relData
                  else
                    match modelSchemaOf config relationType with
                    | Missing => throw (schemaNotFoundForRelation relationType key)
                    | Inherited => throw (parseIsNotAFunction "relationSchema")
                    | Own relationSchema =>
                        parsed <- callParse relationType relationSchema relData ;;
                        setProp result key parsed
                    end
              end
          end
      end
    else ret tt.

Definition invalidData (item : Value) : Thrown :=
  ZodipusValidationError
    ("Invalid data for model " ++ dquote ++ model ++ dquote)
    (mkContext model None (Some "object")
       (Some (if isNull item then "null" else typeof item)) None).

(** The object the relations are written to: the item itself under
    [select], what the model's schema returns otherwise. *)
Definition baseResult (item : Value) : M Value :=
  if hasSelect then ret item
  else
    match modelSchemaOf config model with
    | Missing =>
        throw (ZodipusValidationError "Model schema not found"
                 (mkContext model None None None None))
    | Inherited => throw (parseIsNotAFunction "modelSchema")
    | Own modelSchema => callParse model modelSchema item
    end.

Definition parseRelations (item : Value) : M Value :=
  if negb (String.eqb (typeof item) "object") || isNull item then
    throw (invalidData item)
  else
    result <- baseResult item ;;
    forOf (parseRelationEntry item result) (Object_entries query) ;;;
    ret result.

(** [createParser(isArray)(data)]; a [data] without a [map] method
    makes [arrayData.map] a [TypeError]. *)
Definition createParser (isArray : bool) (data : Value) : M Value :=
  if isArray then
    h <- getHeap ;;
    match asArray h data with
    | Some arrayData =>
        mapped <- Array_map parseRelations arrayData ;;
        allocArray mapped
    | None => throw (TypeError "arrayData.map is not a function")
    end
  else parseRelations data.

(** [error instanceof Error ? error : new Error(String(error))]: the
    conversion to a string can itself throw. *)
Definition asError (error : Thrown) : Completion Thrown :=
  match error with
  | NonError rendered => Normal (PlainError rendered)
  | Unprintable raised => Throw raised
  | _ => Normal error
  end.

(** [{ success: false, error: ... }], evaluated in the [catch] block *)
Definition failure (error : Thrown) : M SafeParseResult :=
  fun st =>
    match asError error with
    | Normal err => (Normal (Failure err), st)
    | Throw raised => (Throw raised, st)
    end.

Definition parse : Value -> M Value := createParser false.

Definition safeParse (data : Value) : M SafeParseResult :=
  tryCatch (r <- createParser false data ;; ret (Success r)) failure.

Definition array_parse : Value -> M Value := createParser true.

Definition array_safeParse (data : Value) : M SafeParseResult :=
  tryCatch (r <- createParser true data ;; ret (Success r)) failure.
End Executor.

Record ArrayExecutor : Type := mkArrayExecutor {
  arr_parse : Value -> M Value;
  arr_safeParse : Value -> M SafeParseResult
}.

Record QueryExecutor : Type := mkQueryExecutor {
  exec_query : CompiledQuery;
  exec_parse : Value -> M Value;
  exec_safeParse : Value -> M SafeParseResult;
  exec_array : unit -> ArrayExecutor
}.

(** The builder returned by [createQuery(model)]. *)
Definition queryBuilder (config : Config) (model : string)
    (query : QueryObject) : Completion QueryExecutor :=
  Normal
    (mkQueryExecutor
       (compiledQuery query)
       (parse config model query)
       (safeParse config model query)
       (fun _ =>
          mkArrayExecutor (array_parse config model query)
                          (array_safeParse config model query))).

(** [createRegistry(config).createQuery(model)]: the function body only
    builds the closure. *)
Definition createQuery (config : Config) (model : string)
  : Completion (QueryObject -> Completion QueryExecutor) :=
  Normal (queryBuilder config model).

Definition createRegistry (config : Config)
  : string -> Completion (QueryObject -> Completion QueryExecutor) :=
  createQuery config.

(** ** Sample registry, queries and stores used by the examples *)

(** [z.object({...})] over the keys [keys], in Zod's default strip mode:
    the argument must be a plain object with every key of [keys]; the
    result is a new object that keeps those keys only. *)
Definition objectSchema (keys : list string) : Schema :=
  fun h v =>
    match v with
    | VRef l =>
        match h !! l with
        | Some (mkObj m None _ _) =>
            if forallb (fun k => bool_decide (is_Some (m !! k))) keys then
              Normal ([plainObject (filter (fun kv => fst kv ∈ keys) m)],
                      VRef (length h))
            else Throw (ZodError "Required")
        | _ => Throw (ZodError "Expected object")
        end
    | _ => Throw (ZodError "Expected object")
    end.

Definition sampleModels : gmap string Schema :=
  <["user" := objectSchema ["id"; "email"]]>
  (<["post" := objectSchema ["id"; "title"]]>
  (<["profile" := objectSchema ["bio"]]> ∅)).

Definition sampleRelations : gmap string (gmap string RelationConfig) :=
  <["user" :=
      <["posts" := mkRelationConfig "post" true
                     (Some [("author", mkRelationConfig "user" false None)])]>
      (<["profile" := mkRelationConfig "profile" false None]> ∅)]>
  (<["post" := <["author" := mkRelationConfig "user" false None]> ∅]>
  (<["profile" := <["user" := mkRelationConfig "user" false None]> ∅]> ∅)).

Definition sampleConfig : Config := mkConfig sampleModels sampleRelations.

Definition emptyConfig : Config := mkConfig ∅ ∅.

Definition obj (l : list (string * Value)) : Obj := plainObject (list_to_map l).

(** [0: {id: 1, email: "a@b.c", posts: <1>}], [1: [<2>]],
    [2: {id: 10, title: "x", draft: true}] *)
Definition userWithPosts : State :=
  mkState
    [ obj [("id", VNum 1); ("email", VStr "a@b.c"); ("posts", VRef 1)];
      arrayObject [VRef 2];
      obj [("id", VNum 10); ("title", VStr "x"); ("draft", VBool true)] ]
    [].

(** [0: {id: 1, email: "a@b.c", posts: <1>}], [1: [<2>]], [2: {id: 10}]:
    the post lacks the [title] its schema requires. *)
Definition userWithBadPost : State :=
  mkState
    [ obj [("id", VNum 1); ("email", VStr "a@b.c"); ("posts", VRef 1)];
      arrayObject [VRef 2];
      obj [("id", VNum 10)] ]
    [].

(** [0: {id: 1, posts: <1>}], [1: {id: 10, title: "x"}]: [posts] holds a
    single object, not a sequence. *)
Definition userWithSinglePosts : State :=
  mkState
    [ obj [("id", VNum 1); ("posts", VRef 1)];
      obj [("id", VNum 10); ("title", VStr "x")] ]
    [].

(** [0: {id: 1, profile: null}] *)
Definition userWithoutProfile : State :=
  mkState [ obj [("id", VNum 1); ("profile", VNull)] ] [].

(** [Object.freeze(o)] *)
Definition freeze (o : Obj) : Obj :=
  mkObj (props o) (elems o) false (dom (props o)).

(** [0: Object.freeze({id: 1, email: "a@b.c", profile: null})] *)
Definition frozenUserWithoutProfile : State :=
  mkState
    [ freeze (obj [("id", VNum 1); ("email", VStr "a@b.c"); ("profile", VNull)]) ]
    [].

(** [0: [<1>, <4>, <7>]], and three users with one post each:
    [1: {id: 1, email: "a", posts: <2>}], [2: [<3>]],
    [3: {id: 10, title: "x", draft: true}];
    [4: {id: 2, email: "b", posts: <5>}], [5: [<6>]], [6: {id: 20}];
    [7: {id: 3, email: "c", posts: <8>}], [8: [<9>]],
    [9: {id: 30, title: "z"}]. The post of the second user lacks the
    [title] its schema requires. *)
Definition usersWithPosts : State :=
  mkState
    [ arrayObject [VRef 1; VRef 4; VRef 7];
      obj [("id", VNum 1); ("email", VStr "a"); ("posts", VRef 2)];
      arrayObject [VRef 3];
      obj [("id", VNum 10); ("title", VStr "x"); ("draft", VBool true)];
      obj [("id", VNum 2); ("email", VStr "b"); ("posts", VRef 5)];
      arrayObject [VRef 6];
      obj [("id", VNum 20)];
      obj [("id", VNum 3); ("email", VStr "c"); ("posts", VRef 8)];
      arrayObject [VRef 9];
      obj [("id", VNum 30); ("title", VStr "z")] ]
    [].

(** A schema whose [parse] throws [Object.create(null)], a value that is
    not an [Error] and that [String(...)] cannot convert. *)
Definition throwsNullPrototype : Schema :=
  fun _ _ =>
    Throw (Unprintable (TypeError "Cannot convert object to primitive value")).

Definition throwingConfig : Config :=
  mkConfig (<["user" := throwsNullPrototype]> ∅) ∅.

(** [0: [<1>, <2>, <3>]], [1: {id: 1, email: "a"}], [2: {id: 2}],
    [3: {id: 3, email: "c"}]: the second user lacks its [email]. *)
Definition threeUsers : State :=
  mkState
    [ arrayObject [VRef 1; VRef 2; VRef 3];
      obj [("id", VNum 1); ("email", VStr "a")];
      obj [("id", VNum 2)];
      obj [("id", VNum 3); ("email", VStr "c")] ]
    [].

(** [threeUsers] once the first user has been validated, and once the
    second has been rejected. *)
Definition threeUsers_afterFirst : State :=
  mkState (heap threeUsers ++ [obj [("id", VNum 1); ("email", VStr "a")]])
          [EvParse "user" (VRef 1)].

Definition threeUsers_atFailure : State :=
  mkState (heap threeUsers_afterFirst)
          [EvParse "user" (VRef 1); EvParse "user" (VRef 2)].

(** The Prisma query of the executor that
    [createRegistry(config).createQuery(model)(query)] returns *)
Definition compiledBy (config : Config) (model : string) (query : QueryObject)
  : Completion CompiledQuery :=
  match createQuery config model with
  | Normal builder =>
      match builder query with
      | Normal executor => Normal (exec_query executor)
      | Throw e => Throw e
      end
  | Throw e => Throw e
  end.

Definition selectId : string * QueryValue :=
  ("select", QObject [("id", QBool true)]).

Definition includeAuthor : QueryValue :=
  QObject [("include", QObject [("author", QBool true)])].

(** Every descriptor of [config] with its cardinality replaced by
    [card model key] *)
Definition withCardinality (card : string -> string -> bool) (config : Config)
  : Config :=
  mkConfig (models config)
    (map_imap
       (fun m mr =>
          Some (map_imap
                  (fun k d =>
                     Some (mkRelationConfig (rel_type d) (card m k)
                             (rel_relations d)))
                  mr))
       (relations config)).

Definition isSelect (c : CompiledQuery) : bool :=
  match c with CSelect _ => true | CInclude _ => false end.

(** The map under the tag *)
Definition queryMap (c : CompiledQuery) : QueryObject :=
  match c with CSelect v | CInclude v => ownEntries v end.

(** ** What a run may change in the store *)

(** From [st] to [st'] the store did not shrink, and every object of [st]
    other than the one [result] refers to is as it was. *)
Definition frame (result : Value) (st st' : State) : Prop :=
  length (heap st) <= length (heap st')
  /\ forall l', l' < length (heap st) -> VRef l' <> result ->
                heap st' !! l' = heap st !! l'.

Definition writesOnly {A} (result : Value) (m : M A) : Prop :=
  forall st r st', m st = (r, st') -> frame result st st'.

(** * The generator ([generator.ts])

    Strings are sequences of UTF-16 code units below 256. *)

Definition charCode (c : Ascii.ascii) : N := Ascii.N_of_ascii c.

(** [c.toLowerCase()] for one code unit: A-Z, and the capitals of Latin-1
    other than the multiplication sign. *)
Definition toLowerCaseChar (c : Ascii.ascii) : Ascii.ascii :=
  let n := charCode c in
  if ((65 <=? n) && (n <=? 90)
      || (192 <=? n) && (n <=? 222) && negb (n =? 215))%N
  then Ascii.ascii_of_N (n + 32)
  else c.

(** [str.charAt(0).toLowerCase() + str.slice(1)] *)
Definition toCamelCase (str : string) : string :=
  match str with
  | EmptyString => EmptyString
  | String c rest => String (toLowerCaseChar c) rest
  end.

(** The class [\s] of a regular expression *)
Definition isSpace (c : Ascii.ascii) : bool :=
  let n := charCode c in
  ((9 <=? n) && (n <=? 13) || (n =? 32) || (n =? 160))%N.

(** The class [\w] *)
Definition isWord (c : Ascii.ascii) : bool :=
  let n := charCode c in
  ((48 <=? n) && (n <=? 57) || (65 <=? n) && (n <=? 90)
   || (97 <=? n) && (n <=? 122) || (n =? 95))%N.

Fixpoint takeWhile (p : Ascii.ascii -> bool) (s : string) : string :=
  match s with
  | EmptyString => EmptyString
  | String c rest => if p c then String c (takeWhile p rest) else EmptyString
  end.

Fixpoint dropWhile (p : Ascii.ascii -> bool) (s : string) : string :=
  match s with
  | EmptyString => EmptyString
  | String c rest => if p c then dropWhile p rest else s
  end.

(** The at sign, code 64 *)
Definition atSign : Ascii.ascii :=
  Ascii.Ascii false false false false false false true false.

(** Every character of [s] is in the class [p]. *)
Fixpoint allChars (p : Ascii.ascii -> bool) (s : string) : bool :=
  match s with
  | EmptyString => true
  | String c rest => p c && allChars p rest
  end.

(** [s] starts with a character of the class [p]. *)
Definition startsWith (p : Ascii.ascii -> bool) (s : string) : bool :=
  match s with
  | EmptyString => false
  | String c _ => p c
  end.

(** [s] without its prefix [p], when it starts with [p] *)
Fixpoint stripPrefix (p s : string) : option string :=
  match p with
  | EmptyString => Some s
  | String a p' =>
      match s with
      | EmptyString => None
      | String b s' => if Ascii.eqb a b then stripPrefix p' s' else None
      end
  end.

(** [/@zodSchema\s+(\w+)/] matched at the start of [s]: the literal, then
    as much white space as there is and at least one, then as many word
    characters as there are and at least one. The two classes are
    disjoint, so giving back white space cannot turn a failure into a
    match. The result is the capture group. *)
Definition matchAnnotation (s : string) : option string :=
  match stripPrefix "@zodSchema" s with
  | None => None
  | Some rest =>
      match takeWhile isSpace rest with
      | EmptyString => None
      | String _ _ =>
          match takeWhile isWord (dropWhile isSpace rest) with
          | EmptyString => None
          | name => Some name
          end
      end
  end.

(** [s.match(/@zodSchema\s+(\w+)/)]: the match at the leftmost position
    that has one. *)
Fixpoint searchAnnotation (s : string) : option string :=
  match matchAnnotation s with
  | Some name => Some name
  | None =>
      match s with
      | EmptyString => None
      | String _ rest => searchAnnotation rest
      end
  end.

(** [extractCustomSchema(documentation)]; [None] is [undefined] as an
    argument and [null] as a result. *)
Definition extractCustomSchema (documentation : option string) : option string :=
  match documentation with
  | None => None
  | Some EmptyString => None
  | Some d => searchAnnotation d
  end.

(** ** [mapPrismaTypeToZod] *)

Record ZodipusConfig : Type := mkZodipusConfig {
  dateFormat : string;
  passthroughEnabled : bool;
  relationDepth : option Z;
  debug : bool;
  zodImport : string;
  dryRun : bool
}.

(** The validator text of a [Decimal] field; it holds double quotes. *)
Definition decimalZod : string :=
  ("z.union([z.number(), z.string(), z.custom<{ toString(): string }>((val) => typeof val === "
   +:+ dquote +:+ "object" +:+ dquote +:+ " && val !== null && "
   +:+ dquote +:+ "toString" +:+ dquote +:+ " in val)]).transform(String)").

(** [mapPrismaTypeToZod(field, enumNames, config)]; of the field only its
    [type] is read. *)
Definition mapPrismaTypeToZod (fieldType : string) (enumNames : gset string)
    (config : ZodipusConfig) : string :=
  if bool_decide (fieldType ∈ enumNames) then fieldType +:+ "Schema"
  else if String.eqb fieldType "String" then "z.string()"
  else if String.eqb fieldType "Int" then "z.number().int()"
  else if String.eqb fieldType "BigInt" then "z.bigint()"
  else if String.eqb fieldType "Float" then "z.number()"
  else if String.eqb fieldType "Decimal" then decimalZod
  else if String.eqb fieldType "Boolean" then "z.boolean()"
  else if String.eqb fieldType "DateTime" then
    if String.eqb (dateFormat config) "string" then "z.string().datetime()"
    else "z.coerce.date()"
  else if String.eqb fieldType "Json" then
    "z.union([z.record(z.string(), z.unknown()), z.array(z.unknown())])"
  else if String.eqb fieldType "Bytes" then "z.instanceof(Buffer)"
  else "z.unknown()".

(** ** The message of a [ZodipusValidationError] ([errors.ts]) *)

(** [parts.join(sep)] *)
Fixpoint joinWith (sep : string) (parts : list string) : string :=
  match parts with
  | [] => ""
  | [x] => x
  | x :: rest => x +:+ sep +:+ joinWith sep rest
  end.

(** [value ? label + value : null] for an optional string *)
Definition labelled (label : string) (value : option string) : option string :=
  match value with
  | Some (String c rest) => Some (label +:+ String c rest)
  | _ => None
  end.

(** [context.path?.length ? 'Path: ' + context.path.join('.') : null], for
    a path of strings *)
Definition pathPart (path : option (list string)) : option string :=
  match path with
  | Some (x :: rest) => Some ("Path: " +:+ joinWith "." (x :: rest))
  | _ => None
  end.

(** The list of context parts after [.filter(Boolean)] *)
Definition contextParts (context : ValidationErrorContext) : list string :=
  omap id
    [ Some ("Model: " +:+ ctx_model context);
      labelled "Field: " (ctx_field context);
      labelled "Expected: " (ctx_expected context);
      labelled "Received: " (ctx_received context);
      pathPart (ctx_path context) ].

(** The message passed to [super]: [message + ' (' + contextInfo + ')'] *)
Definition validationErrorMessage (message : string)
    (context : ValidationErrorContext) : string :=
  message +:+ " (" +:+ joinWith ", " (contextParts context) +:+ ")".

(** A context with its empty entries removed *)
Definition withoutEmpty (context : ValidationErrorContext)
  : ValidationErrorContext :=
  mkContext (ctx_model context)
    (match ctx_field context with Some "" => None | o => o end)
    (match ctx_expected context with Some "" => None | o => o end)
    (match ctx_received context with Some "" => None | o => o end)
    (match ctx_path context with Some [] => None | o => o end).

(** ** [extractRelationsFromDMMF] *)

Inductive FieldKind : Type := KScalar | KObject | KEnum | KUnsupported.

(** The parts of a DMMF field and model that the extractor reads *)
Record Field : Type := mkField {
  field_name : string;
  field_kind : FieldKind;
  field_type : string;
  field_isList : bool
}.

Record Model : Type := mkModel {
  model_name : string;
  model_fields : list Field
}.

Definition isObjectField (f : Field) : bool :=
  match field_kind f with KObject => true | _ => false end.

(** [o[key] = v] on an object kept as its entries in insertion order *)
Fixpoint assocSet {A} (key : string) (v : A) (o : list (string * A))
  : list (string * A) :=
  match o with
  | [] => [(key, v)]
  | (k, w) :: rest =>
      if String.eqb k key then (k, v) :: rest else (k, w) :: assocSet key v rest
  end.

(** [o[key]] *)
Fixpoint assocGet {A} (o : list (string * A)) (key : string) : option A :=
  match o with
  | [] => None
  | (k, v) :: rest => if String.eqb k key then Some v else assocGet rest key
  end.

(** [new Map(models.map((m) => [m.name, m]))]: a later model replaces an
    earlier one of the same name. *)
Definition modelMapOf (dmmfModels : list Model) : gmap string Model :=
  fold_left (fun m md => <[model_name md := md]> m) dmmfModels ∅.

(** [depth > maxDepth]; [maxDepth] is what [Number.parseInt] returned: an
    integer, or [NaN] ([None]), against which every comparison is
    false. *)
Definition exceeds (depth : nat) (maxDepth : option Z) : bool :=
  match maxDepth with
  | Some m => (m <? Z.of_nat depth)%Z
  | None => false
  end.

(** [...(Object.keys(nestedRelations).length > 0 && { relations: nestedRelations })] *)
Definition nestedField (nestedRelations : list (string * RelationConfig))
  : option (list (string * RelationConfig)) :=
  match nestedRelations with
  | [] => None
  | _ => Some nestedRelations
  end.

(** The body of the loop over the fields of a model, for any way [g] of
    building the descriptor of a relation field *)
Definition fieldStep {A} (g : Field -> A) (result : list (string * A))
    (field : Field) : list (string * A) :=
  if isObjectField field then assocSet (field_name field) (g field) result
  else result.

Section Extract.
Variable dmmfModels : list Model.
Variable maxDepth : option Z.

(** The inner function [extractForModel]. The recursion is on [fuel]; the
    number of models is enough fuel, as is proved below. *)
Fixpoint extractForModel (fuel : nat) (modelName : string) (depth : nat)
    (visited : gset string) : list (string * RelationConfig) :=
  match fuel with
  | 0 => []
  | S fuel' =>
      if exceeds depth maxDepth || bool_decide (modelName ∈ visited) then []
      else
        match modelMapOf dmmfModels !! modelName with
        | None => []
        | Some model =>
            let newVisited := visited ∪ {[modelName]} in
            fold_left
              (fun result field =>
                 if isObjectField field then
                   let nestedRelations :=
                     extractForModel fuel' (field_type field) (S depth) newVisited in
                   assocSet (field_name field)
                     (mkRelationConfig (toCamelCase (field_type field))
                        (field_isList field) (nestedField nestedRelations))
                     result
                 else result)
              (model_fields model) []
        end
  end.

Definition extractRelationsFromDMMF
  : list (string * list (string * RelationConfig)) :=
  fold_left
    (fun relations model =>
       let modelRelations :=
         extractForModel (length dmmfModels) (model_name model) 0 ∅ in
       match modelRelations with
       | [] => relations
       | _ => assocSet (toCamelCase (model_name model)) modelRelations relations
       end)
    dmmfModels [].
End Extract.

(** The number of map levels below a descriptor, and of a map *)
Fixpoint levelsOf (r : RelationConfig) : nat :=
  match r with
  | mkRelationConfig _ _ None => 0
  | mkRelationConfig _ _ (Some es) =>
      S ((fix go (es : list (string * RelationConfig)) : nat :=
            match es with
            | [] => 0
            | (_, r') :: rest => Nat.max (levelsOf r') (go rest)
            end) es)
  end.

Definition mapLevels (es : list (string * RelationConfig)) : nat :=
  match es with
  | [] => 0
  | _ => S (list_max (map (fun e => levelsOf (snd e)) es))
  end.

(** Every nested map of the descriptor has an entry. *)
Fixpoint nestedNonEmpty (r : RelationConfig) : bool :=
  match r with
  | mkRelationConfig _ _ None => true
  | mkRelationConfig _ _ (Some es) =>
      match es with [] => false | _ => true end
      && (fix go (es : list (string * RelationConfig)) : bool :=
            match es with
            | [] => true
            | (_, r') :: rest => nestedNonEmpty r' && go rest
            end) es
  end.

(** A schema of two models that refer to each other, one of them also to
    itself: [User.posts -> Post[]], [Post.author -> User],
    [Post.related -> Post[]]; and a model without relation fields. *)
Definition blogModels : list Model :=
  [ mkModel "User"
      [ mkField "id" KScalar "String" false;
        mkField "posts" KObject "Post" true ];
    mkModel "Post"
      [ mkField "id" KScalar "String" false;
        mkField "author" KObject "User" false;
        mkField "related" KObject "Post" true ];
    mkModel "Tag" [ mkField "name" KScalar "String" false ] ].

(** * Properties *)

(** ** The monad and the two loops *)

Lemma bind_unfold {A B} (m : M A) (k : A -> M B) st :
  bind m k st =
  match m st with
  | (Normal a, st') => k a st'
  | (Throw e, st') => (Throw e, st')
  end.
Proof. reflexivity. Qed.

Lemma Array_map_cons f x xs st :
  Array_map f (x :: xs) st =
  match f x st with
  | (Normal y, st1) =>
      match Array_map f xs st1 with
      | (Normal ys, st2) => (Normal (y :: ys), st2)
      | (Throw e, st2) => (Throw e, st2)
      end
  | (Throw e, st1) => (Throw e, st1)
  end.
Proof. reflexivity. Qed.

Lemma forOf_cons {A} (body : A -> M unit) e es st :
  forOf body (e :: es) st =
  match body e st with
  | (Normal _, st1) => forOf body es st1
  | (Throw err, st1) => (Throw err, st1)
  end.
Proof. reflexivity. Qed.

Lemma Array_map_ret xs st : Array_map ret xs st = (Normal xs, st).
Proof.
  revert st. induction xs as [|x xs IH]; intros st; [done|].
  rewrite Array_map_cons. cbn. by rewrite IH.
Qed.

(** The loop stops at the first element whose callback throws: what
    follows that element plays no part in the outcome. *)
Lemma Array_map_first_throw f pre x post st ys st1 e st2 :
  Array_map f pre st = (Normal ys, st1) ->
  f x st1 = (Throw e, st2) ->
  Array_map f (pre ++ x :: post) st = (Throw e, st2).
Proof.
  revert st ys. induction pre as [|p pre IH]; intros st ys Hpre Hx.
  - cbn in Hpre. injection Hpre as <- <-.
    rewrite app_nil_l, Array_map_cons. by rewrite Hx.
  - rewrite Array_map_cons in Hpre. rewrite <- app_comm_cons, Array_map_cons.
    destruct (f p st) as [[y|e'] st'] eqn:Hp; [|done].
    destruct (Array_map f pre st') as [[ys'|e'] st''] eqn:Hrest; [|done].
    injection Hpre as _ ->. by rewrite (IH _ _ Hrest Hx).
Qed.

Lemma forOf_app {A} (body : A -> M unit) es1 es2 st :
  forOf body (es1 ++ es2) st = bind (forOf body es1) (fun _ => forOf body es2) st.
Proof.
  revert st. induction es1 as [|e es1 IH]; intros st; [done|].
  rewrite <- app_comm_cons, bind_unfold, !forOf_cons.
  destruct (body e st) as [[[]|err] st']; [|done].
  by rewrite IH, bind_unfold.
Qed.

Lemma forOf_ext {A} (body body' : A -> M unit) es :
  (forall e st, body e st = body' e st) ->
  forall st, forOf body es st = forOf body' es st.
Proof.
  intros Hbody. induction es as [|e es IH]; intros st; [done|].
  rewrite !forOf_cons, Hbody. destruct (body' e st) as [[[]|err] st']; [|done].
  apply IH.
Qed.

(** ** Lookups and assignments *)

Lemma modelSchemaOf_Own config name (schema : Schema) :
  models config !! name = Some schema -> modelSchemaOf config name = Own schema.
Proof. intros H. unfold modelSchemaOf. by rewrite H. Qed.

Lemma modelSchemaOf_Missing config name :
  models config !! name = None -> name ∉ objectPrototypeNames ->
  modelSchemaOf config name = Missing.
Proof.
  intros Hnone Hname. unfold modelSchemaOf. rewrite Hnone.
  by rewrite bool_decide_eq_false_2.
Qed.

Lemma setProp_writable lr ro key v st :
  heap st !! lr = Some ro ->
  writable ro key = true ->
  setProp (VRef lr) key v st
  = (Normal tt, mkState (<[lr := writeProp ro key v]> (heap st)) (trace st)).
Proof. intros Hres Hw. unfold setProp. by rewrite Hres, Hw. Qed.

Lemma setProp_refused lr ro key v st :
  heap st !! lr = Some ro ->
  writable ro key = false ->
  setProp (VRef lr) key v st = (Throw (assignmentRefused ro key), st).
Proof. intros Hres Hw. unfold setProp. by rewrite Hres, Hw. Qed.

(** A property the object has can be written unless it is read-only. *)
Lemma writable_own o key v :
  props o !! key = Some v -> key ∉ readonly o -> writable o key = true.
Proof.
  intros Hown Hro. unfold writable. rewrite Hown.
  by rewrite bool_decide_eq_true_2 by done.
Qed.

(** ** One iteration of the relation loop

    The iteration for the entry [(key, value)] of the query, on an item
    [l] that has the property [key] with value [raw], for a model whose
    relation metadata names a target model [ty] for [key]. *)

Section RelationEntry.
Variable config : Config.
Variable model : string.
Variables (l : loc) (o : Obj) (key : string) (raw : Value).
Variables (mr : gmap string RelationConfig) (ty : string) (st : State).
Hypothesis Hkey : String.eqb key "select" = false.
Hypothesis Hitem : heap st !! l = Some o.
Hypothesis Hraw : props o !! key = Some raw.
Hypothesis Hrels : relations config !! model = Some mr.
Hypothesis Hty : relationTypeOf mr key = Some ty.

Lemma entry_known result value :
  parseRelationEntry config model (VRef l) result (key, value) st =
  match asArray (heap st) raw with
  | Some rels =>
      (mapped <- Array_map
         (relationCallback config model key ty
            (relationHasSelectOrInclude value)) rels ;;
       arr <- allocArray mapped ;;
       setProp result key arr) st
  | None =>
      (if isNull raw then setProp result key VNull
       else if relationHasSelectOrInclude value then setProp result key raw
       else
         match modelSchemaOf config ty with
         | Missing => throw (schemaNotFoundForRelation model ty key)
         | Inherited => throw (parseIsNotAFunction "relationSchema")
         | Own relationSchema =>
             parsed <- callParse ty relationSchema raw ;;
             setProp result key parsed
         end) st
  end.
Proof.
  unfold parseRelationEntry. cbn [fst snd]. rewrite Hkey.
  rewrite bind_unfold. cbn [getHeap]. unfold hasProperty, getProp.
  rewrite Hitem, Hraw. cbn [default].
  rewrite bool_decide_eq_true_2 by eauto. cbn.
  rewrite Hrels, Hty. by destruct (asArray (heap st) raw).
Qed.

(** A [null] relation is assigned as [null]; no validator runs. *)
Lemma entry_null lr ro value :
  raw = VNull ->
  heap st !! lr = Some ro ->
  writable ro key = true ->
  parseRelationEntry config model (VRef l) (VRef lr) (key, value) st =
  (Normal tt, mkState (<[lr := writeProp ro key VNull]> (heap st)) (trace st)).
Proof.
  intros Hnull Hres Hw. rewrite entry_known, Hnull. cbn.
  by apply setProp_writable.
Qed.

(** On a base object that refuses the assignment the iteration throws
    the [TypeError] of the assignment and changes nothing. *)
Lemma entry_null_refused lr ro value :
  raw = VNull ->
  heap st !! lr = Some ro ->
  writable ro key = false ->
  parseRelationEntry config model (VRef l) (VRef lr) (key, value) st =
  (Throw (assignmentRefused ro key), st).
Proof.
  intros Hnull Hres Hw. rewrite entry_known, Hnull. cbn.
  by apply setProp_refused.
Qed.

(** A relation whose spec carries [select] or [include], and whose raw
    value is not a sequence, is assigned as it is; no validator runs. *)
Lemma entry_trusted_single lr ro value :
  relationHasSelectOrInclude value = true ->
  asArray (heap st) raw = None ->
  heap st !! lr = Some ro ->
  writable ro key = true ->
  parseRelationEntry config model (VRef l) (VRef lr) (key, value) st =
  (Normal tt, mkState (<[lr := writeProp ro key raw]> (heap st)) (trace st)).
Proof.
  intros Hv Harr Hres Hw. rewrite entry_known, Harr, Hv.
  destruct (isNull raw) eqn:Hnull.
  - destruct raw; try done. by apply setProp_writable.
  - by apply setProp_writable.
Qed.

(** The same for a sequence: a new array with the same elements. *)
Lemma entry_trusted_array lr ro value rels :
  relationHasSelectOrInclude value = true ->
  asArray (heap st) raw = Some rels ->
  heap st !! lr = Some ro ->
  writable ro key = true ->
  parseRelationEntry config model (VRef l) (VRef lr) (key, value) st =
  (Normal tt,
   mkState (<[lr := writeProp ro key (VRef (length (heap st)))]>
              (heap st ++ [arrayObject rels]))
           (trace st)).
Proof.
  intros Hv Harr Hres Hw. rewrite entry_known, Harr, Hv.
  unfold relationCallback. rewrite bind_unfold, Array_map_ret.
  rewrite bind_unfold. cbn [allocArray].
  by rewrite (setProp_writable lr ro) by (by apply lookup_app_l_Some || done).
Qed.
End RelationEntry.

(** ** Validators over a sequence *)

Lemma Array_map_ext f g xs :
  (forall x st, f x st = g x st) ->
  forall st, Array_map f xs st = Array_map g xs st.
Proof.
  intros Hfg. induction xs as [|x xs IH]; intros st; [done|].
  rewrite !Array_map_cons, Hfg. destruct (g x st) as [[y|e] st1]; [|done].
  by rewrite IH.
Qed.

(** When the loop over [xs] with a validator as callback completes, the
    validator was called on every element, in the order of [xs], each
    result is what the validator returned for the element at the same
    index, and the store only grew. *)
Lemma Array_map_callParse_normal name s xs :
  forall st ys st',
    Array_map (callParse name s) xs st = (Normal ys, st') ->
    trace st' = trace st ++ map (EvParse name) xs
    /\ Forall2 (fun x y => exists h new, s h x = Normal (new, y)) xs ys
    /\ exists new, heap st' = heap st ++ new.
Proof.
  induction xs as [|x xs IH]; intros st ys st' Hrun.
  - cbn in Hrun. injection Hrun as <- <-.
    rewrite app_nil_r. repeat split; [constructor|]. exists []. by rewrite app_nil_r.
  - rewrite Array_map_cons in Hrun. unfold callParse at 1 in Hrun.
    destruct (s (heap st) x) as [[new y]|e] eqn:Hs; [|done].
    destruct (Array_map (callParse name s) xs _) as [[ys'|e] st2] eqn:Hrest; [|done].
    injection Hrun as <- <-.
    destruct (IH _ _ _ Hrest) as (Htr & Hall & new' & Hheap). cbn in Htr, Hheap.
    repeat split.
    + rewrite Htr. cbn. by rewrite <- app_assoc.
    + constructor; [eauto|done].
    + exists (new ++ new'). by rewrite Hheap, app_assoc.
Qed.

(** The loop completes when the validator accepts every element, in the
    store of the call and in every store grown from it. *)
Lemma Array_map_callParse_total name s xs :
  forall st,
    Forall (fun x => forall new, exists r, s (heap st ++ new) x = Normal r) xs ->
    exists ys st', Array_map (callParse name s) xs st = (Normal ys, st').
Proof.
  induction xs as [|x xs IH]; intros st Hall; [by exists [], st|].
  inversion Hall as [|? ? Hx Hall']; subst. clear Hall. rename Hall' into Hall.
  rewrite Array_map_cons. unfold callParse at 1.
  destruct (Hx []) as [[new y] Hs]. rewrite app_nil_r in Hs. rewrite Hs.
  edestruct (IH (mkState (heap st ++ new) (trace st ++ [EvParse name x])))
    as (ys & st' & ->); [|by eexists _, _].
  cbn. eapply Forall_impl; [|exact Hall]. cbn. intros x' Hx' new'.
  rewrite <- app_assoc. apply Hx'.
Qed.

(** ** Entries that name no relation of the model *)

Lemma entry_unknown config model item result key value st :
  relations config !! model ≫= (fun mr => mr !! key) = None ->
  parseRelationEntry config model item result (key, value) st = (Normal tt, st).
Proof.
  intros Hnone. unfold parseRelationEntry. cbn [fst snd].
  destruct (String.eqb key "select"); [done|].
  rewrite bind_unfold. cbn [getHeap].
  destruct (_ && _); [|done].
  destruct (relations config !! model) as [mr|]; [|done].
  cbn in Hnone. unfold relationTypeOf. by rewrite Hnone.
Qed.

Lemma qIn_remove k q1 e q2 :
  fst e <> k -> qIn k (q1 ++ e :: q2) = qIn k (q1 ++ q2).
Proof.
  intros Hne. unfold qIn. rewrite !existsb_app. cbn.
  by rewrite (proj2 (String.eqb_neq _ _) Hne).
Qed.

Lemma qGet_remove k q1 e q2 :
  fst e <> k -> qGet (q1 ++ e :: q2) k = qGet (q1 ++ q2) k.
Proof.
  intros Hne. induction q1 as [|[k1 v1] q1 IH]; cbn.
  - destruct e as [k' v']. cbn in Hne. by rewrite (proj2 (String.eqb_neq _ _) Hne).
  - by rewrite IH.
Qed.

Lemma hasSelect_remove q1 e q2 :
  fst e <> "select" -> hasSelect (q1 ++ e :: q2) = hasSelect (q1 ++ q2).
Proof.
  intros Hne. unfold hasSelect. by rewrite qIn_remove, qGet_remove.
Qed.

Lemma parseRelations_remove_unknown config model q1 key value q2 item st :
  key <> "select" ->
  relations config !! model ≫= (fun mr => mr !! key) = None ->
  parseRelations config model (q1 ++ (key, value) :: q2) item st =
  parseRelations config model (q1 ++ q2) item st.
Proof.
  intros Hne Hnone. unfold parseRelations.
  destruct (_ || _); [done|].
  rewrite !bind_unfold. unfold baseResult. rewrite hasSelect_remove by done.
  fold (baseResult config model (q1 ++ q2) item).
  destruct (baseResult config model (q1 ++ q2) item st) as [[result|e] st1]; [|done].
  rewrite !bind_unfold. unfold Object_entries.
  rewrite !forOf_app, !bind_unfold.
  destruct (forOf _ q1 st1) as [[[]|e] st2]; [|done].
  by rewrite forOf_cons, entry_unknown.
Qed.

(** ** The cardinality recorded in a descriptor *)

Lemma relationTypeOf_withCardinality (g : string -> bool) mr key :
  relationTypeOf
    (map_imap (fun k d =>
                 Some (mkRelationConfig (rel_type d) (g k) (rel_relations d)))
              mr) key
  = relationTypeOf mr key.
Proof.
  unfold relationTypeOf. rewrite map_lookup_imap.
  by destruct (mr !! key) as [[t a n]|].
Qed.

Lemma parseRelationEntry_withCardinality card config model item result e st :
  parseRelationEntry (withCardinality card config) model item result e st =
  parseRelationEntry config model item result e st.
Proof.
  unfold parseRelationEntry. destruct (String.eqb (fst e) "select"); [done|].
  rewrite !bind_unfold. cbn [getHeap].
  destruct (_ && _); [|done].
  cbn [withCardinality relations]. rewrite map_lookup_imap.
  destruct (relations config !! model) as [mr|]; [|done].
  cbn [mbind option_bind]. by rewrite relationTypeOf_withCardinality.
Qed.

Lemma parseRelations_withCardinality card config model q item st :
  parseRelations (withCardinality card config) model q item st =
  parseRelations config model q item st.
Proof.
  unfold parseRelations. destruct (_ || _); [done|].
  rewrite !bind_unfold.
  change (baseResult (withCardinality card config) model q item)
    with (baseResult config model q item).
  destruct (baseResult config model q item st) as [[result|err] st1]; [|done].
  rewrite !bind_unfold.
  by rewrite (forOf_ext _ (parseRelationEntry config model item result))
    by (intros; apply parseRelationEntry_withCardinality).
Qed.


(** ** What the boxed form of a parser returns *)

Lemma boxed_spec (m : M Value) st :
  let boxed := tryCatch (r <- m ;; ret (Success r)) failure in
  (forall v st', boxed st = (Normal (Success v), st') <-> m st = (Normal v, st'))
  /\ (forall err st',
        boxed st = (Normal (Failure err), st') <->
        exists e, m st = (Throw e, st') /\ asError e = Normal err)
  /\ (forall raised st',
        boxed st = (Throw raised, st') <->
        exists e, m st = (Throw e, st') /\ asError e = Throw raised).
Proof.
  cbn zeta. unfold tryCatch. rewrite bind_unfold.
  destruct (m st) as [[v|e] st1]; unfold ret, failure.
  - split; [|split].
    + intros v' st'. split; intros H; by simplify_eq.
    + intros err st'. split; [done|]. by intros (e & He & _).
    + intros raised st'. split; [done|]. by intros (e & He & _).
  - destruct (asError e) as [err0|raised0] eqn:Hconv; (split; [|split]).
    + intros v' st'. split; intros H; by simplify_eq.
    + intros err st'. split.
      * intros H. simplify_eq. by exists e.
      * intros (e' & He & Herr). simplify_eq. congruence.
    + intros raised st'. split; [done|].
      intros (e' & He & Herr). simplify_eq. congruence.
    + intros v' st'. split; intros H; by simplify_eq.
    + intros err st'. split; [done|].
      intros (e' & He & Herr). simplify_eq. congruence.
    + intros raised st'. split.
      * intros H. simplify_eq. by exists e.
      * intros (e' & He & Herr). simplify_eq. congruence.
Qed.

(** ** Reading back what [setProp] wrote *)

Lemma getProp_written (h : Heap) lr ro key v :
  h !! lr = Some ro ->
  getProp (<[lr := writeProp ro key v]> h) (VRef lr) key = v.
Proof.
  intros Hres. unfold getProp.
  rewrite list_lookup_insert_eq by (by eapply lookup_lt_Some).
  cbn. by rewrite lookup_insert_eq.
Qed.

Lemma asArray_new (h : Heap) lr o ys :
  lr < length h ->
  asArray (<[lr := o]> (h ++ [arrayObject ys])) (VRef (length h)) = Some ys.
Proof.
  intros Hlt. unfold asArray.
  rewrite list_lookup_insert_ne by lia.
  rewrite lookup_app_r by lia. by rewrite Nat.sub_diag.
Qed.

(** The same loop with the callback of an array-valued relation whose
    spec carries neither [select] nor [include] *)
Lemma relationCallback_validates config model key ty s rels st :
  models config !! ty = Some s ->
  Array_map (relationCallback config model key ty false) rels st
  = Array_map (callParse ty s) rels st.
Proof.
  intros Hs. apply Array_map_ext. intros x st'.
  unfold relationCallback. by rewrite (modelSchemaOf_Own _ _ _ Hs).
Qed.

(** ** The object returned under [select] *)

(** Under [select] the parser returns the reference it was given: the
    relations are written into the caller's object. *)
Lemma parseRelations_select_returns_item config model query item st v st' :
  hasSelect query = true ->
  parseRelations config model query item st = (Normal v, st') ->
  v = item.
Proof.
  intros Hsel. unfold parseRelations. destruct (_ || _); [done|].
  rewrite bind_unfold. unfold baseResult. rewrite Hsel. cbn [ret].
  rewrite bind_unfold.
  destruct (forOf _ _ st) as [[[]|e] st1]; [|done].
  cbn. by intros [= <- _].
Qed.

(** ** Compilation *)

Lemma qSet_fresh k v o :
  k ∉ map fst o -> qSet k v o = o ++ [(k, v)].
Proof.
  induction o as [|[k' w] o IH]; intros Hk; [done|].
  cbn in Hk |- *. apply not_elem_of_cons in Hk as [Hne Hk].
  rewrite (proj2 (String.eqb_neq _ _)) by done. by rewrite IH.
Qed.

Lemma spread_NoDup a b :
  NoDup (map fst (a ++ b)) -> spread a b = a ++ b.
Proof.
  unfold spread. revert a. induction b as [|[k v] b IH]; intros a Hnd.
  - by rewrite app_nil_r.
  - cbn [fold_left fst snd]. rewrite qSet_fresh.
    + rewrite IH; rewrite <- app_assoc; done.
    + rewrite map_app in Hnd.
      apply list.NoDup_app in Hnd as (_ & Hdisj & _).
      intros Hin. apply (Hdisj k Hin). cbn. left.
Qed.

Lemma fromEntries_NoDup es : NoDup (map fst es) -> fromEntries es = es.
Proof. intros Hnd. unfold fromEntries. by rewrite spread_NoDup. Qed.

Lemma NoDup_keys_filter (P : string * QueryValue -> Prop)
    `{!forall e, Decision (P e)} (q : QueryObject) :
  NoDup (map fst q) -> NoDup (map fst (filter P q)).
Proof.
  induction q as [|e q IH]; intros Hnd; [done|].
  cbn in Hnd. apply list.NoDup_cons in Hnd as [Hfresh Hnd].
  rewrite filter_cons. destruct (decide (P e)); [|by apply IH].
  cbn. apply list.NoDup_cons. split; [|by apply IH].
  intros Hin. apply Hfresh.
  apply list_elem_of_fmap in Hin as (e' & -> & Hin).
  apply list_elem_of_fmap. exists e'. split; [done|].
  by apply list_elem_of_filter in Hin as [_ Hin].
Qed.

Lemma relationEntries_NoDup q :
  NoDup (map fst q) ->
  relationEntries q = filter (fun e => fst e ≠ "select") q.
Proof.
  intros Hnd. unfold relationEntries, Object_entries.
  apply fromEntries_NoDup. by apply NoDup_keys_filter.
Qed.

Lemma qGet_qSet k v o k' :
  qGet (qSet k v o) k' = if String.eqb k k' then v else qGet o k'.
Proof.
  induction o as [|[k1 w] o IH]; cbn; [done|].
  destruct (String.eqb k1 k) eqn:E1; cbn.
  - apply String.eqb_eq in E1 as ->. by destruct (String.eqb k k').
  - rewrite IH. destruct (String.eqb k1 k') eqn:E2; [|done].
    apply String.eqb_eq in E2 as ->. by rewrite String.eqb_sym, E1.
Qed.

Lemma qIn_qSet k v o k' :
  qIn k' (qSet k v o) = String.eqb k k' || qIn k' o.
Proof.
  unfold qIn. induction o as [|[k1 w] o IH]; cbn; [by rewrite orb_false_r|].
  destruct (String.eqb k1 k) eqn:E1; cbn.
  - apply String.eqb_eq in E1 as ->. by destruct (String.eqb k k').
  - rewrite IH. by destruct (String.eqb k1 k'), (String.eqb k k').
Qed.

(** An entry of [b] under a key that occurs once in [b] is an entry of
    [{...a, ...b}]. *)
Lemma spread_entry a b k v :
  NoDup (map fst b) -> (k, v) ∈ b ->
  qIn k (spread a b) = true /\ qGet (spread a b) k = v.
Proof.
  unfold spread. revert a. induction b as [|[k1 v1] b IH]; intros a Hnd Hin.
  - by apply elem_of_nil in Hin.
  - cbn in Hnd. apply list.NoDup_cons in Hnd as [Hfresh Hnd].
    cbn [fold_left fst snd]. apply elem_of_cons in Hin as [Heq|Hin].
    + injection Heq as <- <-. clear IH.
      assert (forall a', qIn k a' = true /\ qGet a' k = v ->
                qIn k (fold_left (fun acc e => qSet (fst e) (snd e) acc) b a') = true
                /\ qGet (fold_left (fun acc e => qSet (fst e) (snd e) acc) b a') k = v)
        as Hkeep.
      { clear a Hnd. induction b as [|[k2 v2] b IHb]; intros a' Ha'; [done|].
        cbn in Hfresh. apply not_elem_of_cons in Hfresh as [Hne Hfresh].
        cbn [fold_left fst snd]. apply IHb; [done|].
        rewrite qIn_qSet, qGet_qSet.
        rewrite (proj2 (String.eqb_neq k2 k)) by done. by cbn. }
      apply Hkeep. rewrite qIn_qSet, qGet_qSet. by rewrite String.eqb_refl.
    + by apply IH.
Qed.

Lemma qGet_entry b k v :
  NoDup (map fst b) -> (k, v) ∈ b -> qIn k b = true /\ qGet b k = v.
Proof.
  intros Hnd Hin. pose proof (spread_NoDup [] b Hnd) as Heq. cbn in Heq.
  rewrite <- Heq. by apply spread_entry.
Qed.

Lemma hasRelations_false q :
  hasRelations q = false -> relationEntries q = [].
Proof.
  unfold hasRelations, Object_keys. intros H.
  apply bool_decide_eq_false in H. rewrite length_map in H.
  destruct (relationEntries q); [done|]. cbn in H. lia.
Qed.

(** ** The parser on an object *)

Lemma parse_object config model query l st :
  parse config model query (VRef l) st
  = match baseResult config model query (VRef l) st with
    | (Normal result, st1) =>
        match forOf (parseRelationEntry config model (VRef l) result) query st1 with
        | (Normal _, st2) => (Normal result, st2)
        | (Throw e, st2) => (Throw e, st2)
        end
    | (Throw e, st1) => (Throw e, st1)
    end.
Proof. reflexivity. Qed.

(** * The claims *)






(** C3, as claimed, fails twice: a spec with no fields and no relations
    compiles to the [include] form, and an empty field set yields the
    [select] tag. *)
Lemma compiled_tag_counterexample :
  compiledQuery [] = CInclude (QObject [])
  /\ compiledQuery [("select", QObject [])] = CSelect (QObject []).
Proof. split; reflexivity. Qed.

(** C3, amended. The tag is [select] exactly when the spec has a [select]
    entry whose value is truthy, as every object is, the empty field set
    included; otherwise it is [include]. Under [select] the map holds the
    declared fields and the relation entries; under [include] it holds
    the relation entries, so a spec with no [select] and no relations
    compiles to [include] over the empty map. *)
Theorem compiled_tag query :
  (isSelect (compiledQuery query) = true <->
     qIn "select" query = true /\ truthy (qGet query "select") = true)
  /\ (forall fields,
        qIn "select" query = true ->
        qGet query "select" = QObject fields ->
        compiledQuery query
        = CSelect (QObject (spread fields (relationEntries query))))
  /\ (hasSelect query = false ->
      compiledQuery query = CInclude (QObject (relationEntries query))).
Proof.
  unfold compiledQuery, selectQuery, includeQuery. split; [|split].
  - unfold hasSelect.
    destruct (qIn "select" query), (truthy (qGet query "select")); cbn;
      intuition congruence.
  - intros fields Hin Hget. unfold hasSelect. rewrite Hin, Hget. cbn.
    destruct (hasRelations query) eqn:Hrel; cbn; [done|].
    by rewrite (hasRelations_false _ Hrel).
  - intros ->. cbn.
    destruct (hasRelations query) eqn:Hrel; cbn; [done|].
    by rewrite (hasRelations_false _ Hrel).
Qed.

(** C4, as claimed, fails: a relation name that the model's descriptor
    map does not have is an entry of the compiled query, and so is a spec
    nested below the level at which the descriptor map ends. *)
Lemma compiled_unknown_relation_counterexample :
  relations sampleConfig !! "user" ≫= (fun mr => mr !! "ghost") = None
  /\ compiledBy sampleConfig "user" [("ghost", QBool true)]
     = Normal (CInclude (QObject [("ghost", QBool true)]))
  /\ (relations sampleConfig !! "user" ≫= (fun mr => mr !! "posts")
      = Some (mkRelationConfig "post" true
                (Some [("author", mkRelationConfig "user" false None)])))
  /\ compiledBy sampleConfig "user"
       [("posts",
         QObject [("include",
           QObject [("author",
             QObject [("include", QObject [("ghost", QBool true)])])])])]
     = Normal (CInclude (QObject
       [("posts",
         QObject [("include",
           QObject [("author",
             QObject [("include", QObject [("ghost", QBool true)])])])])])).
Proof. repeat split; vm_compute; reflexivity. Qed.

(** C4, amended. Compilation does not consult the descriptor map: for a
    query object (its keys distinct), every entry other than [select] is
    an entry of the compiled query under the same key and with the same
    value, nested specs included, whether or not the model has a relation
    of that name. *)
Theorem compiled_keeps_every_entry config model query :
  NoDup (map fst query) ->
  exists c,
    compiledBy config model query = Normal c
    /\ forall key value,
         key <> "select" -> (key, value) ∈ query ->
         qIn key (queryMap c) = true /\ qGet (queryMap c) key = value.
Proof.
  intros Hnd. exists (compiledQuery query). split; [done|].
  intros key value Hne Hin.
  assert ((key, value) ∈ relationEntries query) as Hrel.
  { rewrite relationEntries_NoDup by done. by apply list_elem_of_filter. }
  assert (NoDup (map fst (relationEntries query))) as Hnd'.
  { rewrite relationEntries_NoDup by done. by apply NoDup_keys_filter. }
  assert (hasRelations query = true) as Hhas.
  { unfold hasRelations, Object_keys. apply bool_decide_eq_true.
    rewrite length_map. destruct (relationEntries query); [|cbn; lia].
    by apply elem_of_nil in Hrel. }
  unfold compiledQuery, selectQuery, includeQuery. rewrite Hhas.
  destruct (hasSelect query); cbn.
  - by apply spread_entry.
  - by apply qGet_entry.
Qed.

(** C4, amended, at a query with a [select] and an entry [ghost] that
    names no relation of [user]. *)
Lemma compiled_keeps_every_entry_witness :
  NoDup (map fst [selectId; ("ghost", QBool true)])
  /\ exists c,
       compiledBy sampleConfig "user" [selectId; ("ghost", QBool true)] = Normal c
       /\ forall key value,
            key <> "select" ->
            (key, value) ∈ [selectId; ("ghost", QBool true)] ->
            qIn key (queryMap c) = true /\ qGet (queryMap c) key = value.
Proof.
  assert (NoDup (map fst [selectId; ("ghost", QBool true)])) as Hnd.
  { apply (bool_decide_unpack _). vm_compute. exact I. }
  split; [exact Hnd|].
  exact (compiled_keeps_every_entry sampleConfig "user"
           [selectId; ("ghost", QBool true)] Hnd).
Defined.

(** C5. With a [select] the parser returns the object it was given, and
    the relation loop writes into it: after the call the raw user's
    [posts] holds a different sequence, whose post is the validated copy
    without the [draft] property of the raw post. *)
Example parse_overwrites_raw_relation :
  getProp (heap userWithPosts) (VRef 0) "posts" = VRef 1
  /\ fst (parse sampleConfig "user" [selectId; ("posts", QBool true)] (VRef 0)
            userWithPosts) = Normal (VRef 0)
  /\ getProp
       (heap (snd (parse sampleConfig "user" [selectId; ("posts", QBool true)]
                     (VRef 0) userWithPosts)))
       (VRef 0) "posts" = VRef 4
  /\ asArray
       (heap (snd (parse sampleConfig "user" [selectId; ("posts", QBool true)]
                     (VRef 0) userWithPosts)))
       (VRef 4) = Some [VRef 3]
  /\ heap (snd (parse sampleConfig "user" [selectId; ("posts", QBool true)]
                  (VRef 0) userWithPosts)) !! 3
     = Some (obj [("id", VNum 10); ("title", VStr "x")])
  /\ heap userWithPosts !! 2
     = Some (obj [("id", VNum 10); ("title", VStr "x"); ("draft", VBool true)]).
Proof. repeat split; vm_compute; reflexivity. Qed.

(** C6, as claimed, fails: [posts] is a Many relation of [user], its raw
    value is a single object and not a sequence, and [parse] raises no
    shape error: the object is validated as a single [post] and
    assigned. *)
Lemma many_relation_non_sequence_counterexample :
  (rel_isArray <$> (relations sampleConfig !! "user" ≫= (fun mr => mr !! "posts")))
  = Some true
  /\ asArray (heap userWithSinglePosts)
       (getProp (heap userWithSinglePosts) (VRef 0) "posts") = None
  /\ parse sampleConfig "user" [selectId; ("posts", QBool true)] (VRef 0)
       userWithSinglePosts
     = (Normal (VRef 0),
        mkState
          [ obj [("id", VNum 1); ("posts", VRef 2)];
            obj [("id", VNum 10); ("title", VStr "x")];
            obj [("id", VNum 10); ("title", VStr "x")] ]
          [EvParse "post" (VRef 1)]).
Proof. repeat split; vm_compute; reflexivity. Qed.

(** C6, amended. [parse] never reads the cardinality of a descriptor:
    with every cardinality replaced, it behaves the same, so no shape
    error depends on it; the branch taken depends on whether the raw
    value is a sequence. For a relation of the model whose raw value is
    the sequence [rels]: if the relation's spec carries [select] or
    [include], a new sequence with the same elements in the same order is
    assigned; otherwise the target's validator is called on the elements
    in their order, the iteration completes if the validator accepts
    every element, and a new sequence holding, index by index, what the
    validator returned is assigned. (A validator accepts an element when
    it does so in the store of the call and in every store grown from
    it; the base object [ro] is one that allows the assignment at
    [key].) *)
Theorem sequence_relation_elementwise
    config model l o key raw mr ty rels lr ro value st :
  String.eqb key "select" = false ->
  heap st !! l = Some o ->
  props o !! key = Some raw ->
  relations config !! model = Some mr ->
  relationTypeOf mr key = Some ty ->
  asArray (heap st) raw = Some rels ->
  heap st !! lr = Some ro ->
  writable ro key = true ->
  (forall card query data st0,
     parse (withCardinality card config) model query data st0
     = parse config model query data st0)
  /\ (relationHasSelectOrInclude value = true ->
      parseRelationEntry config model (VRef l) (VRef lr) (key, value) st
      = (Normal tt,
         mkState (<[lr := writeProp ro key (VRef (length (heap st)))]>
                    (heap st ++ [arrayObject rels]))
                 (trace st)))
  /\ (relationHasSelectOrInclude value = false ->
      forall s, models config !! ty = Some s ->
        (Forall (fun x => forall new, exists r, s (heap st ++ new) x = Normal r)
                rels ->
         exists st',
           parseRelationEntry config model (VRef l) (VRef lr) (key, value) st
           = (Normal tt, st'))
        /\ forall st',
             parseRelationEntry config model (VRef l) (VRef lr) (key, value) st
             = (Normal tt, st') ->
             exists ys a,
               trace st' = trace st ++ map (EvParse ty) rels
               /\ Forall2 (fun x y => exists h new, s h x = Normal (new, y)) rels ys
               /\ getProp (heap st') (VRef lr) key = VRef a
               /\ asArray (heap st') (VRef a) = Some ys).
Proof.
  intros Hkey Hitem Hraw Hrels Hty Harr Hres Hw. split; [|split].
  - intros card query data st0. apply parseRelations_withCardinality.
  - intros Hv. by eapply entry_trusted_array.
  - intros Hv s Hs.
    pose proof (entry_known config model l o key raw mr ty st
                  Hkey Hitem Hraw Hrels Hty (VRef lr) value) as Hentry.
    rewrite Harr, Hv, bind_unfold in Hentry.
    rewrite (relationCallback_validates _ _ _ _ _ _ _ Hs) in Hentry.
    assert (forall ys st1,
              Array_map (callParse ty s) rels st = (Normal ys, st1) ->
              heap st1 !! lr = Some ro) as Hkeep.
    { intros ys st1 Hrun.
      destruct (Array_map_callParse_normal _ _ _ _ _ _ Hrun) as (_ & _ & new & ->).
      by apply lookup_app_l_Some. }
    split.
    + intros Hall.
      destruct (Array_map_callParse_total ty s rels st Hall) as (ys & st1 & Hrun).
      rewrite Hrun, bind_unfold in Hentry. cbn [allocArray] in Hentry.
      rewrite (setProp_writable lr ro) in Hentry
        by (by apply lookup_app_l_Some, (Hkeep _ _ Hrun) || done).
      by eexists.
    + intros st' Hrun'. rewrite Hentry in Hrun'.
      destruct (Array_map (callParse ty s) rels st) as [[ys|e] st1] eqn:Hrun; [|done].
      rewrite bind_unfold in Hrun'. cbn [allocArray] in Hrun'.
      pose proof (Hkeep _ _ eq_refl) as Hres1.
      rewrite (setProp_writable lr ro) in Hrun'
        by (by apply lookup_app_l_Some || done).
      injection Hrun' as <-.
      destruct (Array_map_callParse_normal _ _ _ _ _ _ Hrun) as (Htr & Hall & _).
      exists ys, (length (heap st1)). cbn. repeat split; [done|done| |].
      * apply getProp_written. by apply lookup_app_l_Some.
      * apply asArray_new. by eapply lookup_lt_Some.
Qed.

(** C6, amended, at a user with one post and the spec [posts: true]: the
    post is validated and the new sequence holds the validated copy. *)
Lemma sequence_relation_elementwise_witness :
  asArray (heap userWithPosts) (VRef 1) = Some [VRef 2]
  /\ relationHasSelectOrInclude (QBool true) = false
  /\ exists st' ys a,
       parseRelationEntry sampleConfig "user" (VRef 0) (VRef 0)
         ("posts", QBool true) userWithPosts = (Normal tt, st')
       /\ trace st' = trace userWithPosts ++ map (EvParse "post") [VRef 2]
       /\ Forall2 (fun x y => exists h new,
                     objectSchema ["id"; "title"] h x = Normal (new, y))
            [VRef 2] ys
       /\ getProp (heap st') (VRef 0) "posts" = VRef a
       /\ asArray (heap st') (VRef a) = Some ys.
Proof.
  split; [reflexivity|]. split; [reflexivity|].
  destruct (sequence_relation_elementwise sampleConfig "user" 0
              (obj [("id", VNum 1); ("email", VStr "a@b.c"); ("posts", VRef 1)])
              "posts" (VRef 1)
              (<["posts" := mkRelationConfig "post" true
                              (Some [("author", mkRelationConfig "user" false None)])]>
               (<["profile" := mkRelationConfig "profile" false None]> ∅))
              "post" [VRef 2] 0
              (obj [("id", VNum 1); ("email", VStr "a@b.c"); ("posts", VRef 1)])
              (QBool true) userWithPosts
              eq_refl eq_refl eq_refl eq_refl eq_refl eq_refl eq_refl eq_refl)
    as (_ & _ & H).
  destruct (H eq_refl (objectSchema ["id"; "title"]) eq_refl) as [Htotal Hshape].
  destruct Htotal as [st' Hrun].
  { repeat constructor. intros new. eexists. vm_compute. reflexivity. }
  destruct (Hshape st' Hrun) as (ys & a & Hrest).
  by exists st', ys, a.
Defined.

(** C7. [array().parse] stops at the first element that fails: the
    post of the second user fails validation, the call throws that
    failure and the third user is never looked at. But the results of the
    elements before it are observable: under [select] the relations are
    written into the caller's objects as each element is processed, and
    at the throw the first raw user's [posts] already holds a different
    sequence, whose post is the validated copy. Without [select] the
    same call writes into the validators' results only and leaves the
    ten objects of the caller as they were. *)
Example array_parse_leaves_partial_results :
  fst (array_parse sampleConfig "user" [selectId; ("posts", QBool true)] (VRef 0)
         usersWithPosts) = Throw (ZodError "Required")
  /\ trace (snd (array_parse sampleConfig "user" [selectId; ("posts", QBool true)]
                   (VRef 0) usersWithPosts))
     = [EvParse "post" (VRef 3); EvParse "post" (VRef 6)]
  /\ getProp (heap usersWithPosts) (VRef 1) "posts" = VRef 2
  /\ getProp
       (heap (snd (array_parse sampleConfig "user" [selectId; ("posts", QBool true)]
                     (VRef 0) usersWithPosts)))
       (VRef 1) "posts" = VRef 11
  /\ asArray
       (heap (snd (array_parse sampleConfig "user" [selectId; ("posts", QBool true)]
                     (VRef 0) usersWithPosts)))
       (VRef 11) = Some [VRef 10]
  /\ heap (snd (array_parse sampleConfig "user" [selectId; ("posts", QBool true)]
                  (VRef 0) usersWithPosts)) !! 10
     = Some (obj [("id", VNum 10); ("title", VStr "x")])
  /\ fst (array_parse sampleConfig "user" [("posts", QBool true)] (VRef 0)
            usersWithPosts) = Throw (ZodError "Required")
  /\ take 10 (heap (snd (array_parse sampleConfig "user" [("posts", QBool true)]
                           (VRef 0) usersWithPosts)))
     = heap usersWithPosts.
Proof. repeat split; vm_compute; reflexivity. Qed.

(** C8. [safeParse] and [array().safeParse] can throw. The validator of
    [user] throws a value that is not an [Error] and has no string
    conversion; [parse] throws that value; in the [catch] block of
    [safeParse], [String(error)] throws a [TypeError], which leaves
    [safeParse], and [array().safeParse] likewise. *)
Example safeParse_throws_on_unprintable :
  parse throwingConfig "user" [] (VRef 1) threeUsers
  = (Throw (Unprintable (TypeError "Cannot convert object to primitive value")),
     mkState (heap threeUsers) [EvParse "user" (VRef 1)])
  /\ safeParse throwingConfig "user" [] (VRef 1) threeUsers
     = (Throw (TypeError "Cannot convert object to primitive value"),
        mkState (heap threeUsers) [EvParse "user" (VRef 1)])
  /\ array_safeParse throwingConfig "user" [] (VRef 0) threeUsers
     = (Throw (TypeError "Cannot convert object to primitive value"),
        mkState (heap threeUsers) [EvParse "user" (VRef 1)]).
Proof. repeat split; vm_compute; reflexivity. Qed.

(** C9. Reshaping a [null] relation can fail. Under [select] the base
    object is the raw item, and on a frozen raw item the assignment
    [result[key] = null] throws a [TypeError], for a plain spec and for a
    nested one. Without [select] the same frozen item is reshaped: the
    assignment goes to the validator's result, which holds [null] at
    [profile] afterwards. *)
Example null_relation_on_frozen_item :
  getProp (heap frozenUserWithoutProfile) (VRef 0) "profile" = VNull
  /\ parse sampleConfig "user" [selectId; ("profile", QBool true)] (VRef 0)
       frozenUserWithoutProfile
     = (Throw (TypeError
                 "Cannot assign to read only property 'profile' of object '#<Object>'"),
        frozenUserWithoutProfile)
  /\ parse sampleConfig "user" [selectId; ("profile", includeAuthor)] (VRef 0)
       frozenUserWithoutProfile
     = (Throw (TypeError
                 "Cannot assign to read only property 'profile' of object '#<Object>'"),
        frozenUserWithoutProfile)
  /\ fst (parse sampleConfig "user" [("profile", QBool true)] (VRef 0)
            frozenUserWithoutProfile) = Normal (VRef 1)
  /\ getProp
       (heap (snd (parse sampleConfig "user" [("profile", QBool true)] (VRef 0)
                     frozenUserWithoutProfile)))
       (VRef 1) "profile" = VNull
  /\ trace (snd (parse sampleConfig "user" [("profile", QBool true)] (VRef 0)
                   frozenUserWithoutProfile)) = [EvParse "user" (VRef 0)].
Proof. repeat split; vm_compute; reflexivity. Qed.

(** C10. A query entry that names no relation of the model is a no-op at
    parse time: its iteration of the relation loop returns at once, in
    the state it started in, so it raises nothing and calls no validator;
    and each of the four parsers behaves as it does for the query without
    that entry. *)
Theorem unknown_relation_is_noop config model q1 key value q2 :
  key <> "select" ->
  relations config !! model ≫= (fun mr => mr !! key) = None ->
  (forall item result st,
     parseRelationEntry config model item result (key, value) st = (Normal tt, st))
  /\ (forall data st,
        parse config model (q1 ++ (key, value) :: q2) data st
        = parse config model (q1 ++ q2) data st)
  /\ (forall data st,
        safeParse config model (q1 ++ (key, value) :: q2) data st
        = safeParse config model (q1 ++ q2) data st)
  /\ (forall data st,
        array_parse config model (q1 ++ (key, value) :: q2) data st
        = array_parse config model (q1 ++ q2) data st)
  /\ (forall data st,
        array_safeParse config model (q1 ++ (key, value) :: q2) data st
        = array_safeParse config model (q1 ++ q2) data st).
Proof.
  intros Hne Hnone.
  assert (forall isArray data st,
            createParser config model (q1 ++ (key, value) :: q2) isArray data st
            = createParser config model (q1 ++ q2) isArray data st) as Hparser.
  { intros [] data st; unfold createParser.
    - rewrite !bind_unfold. cbn [getHeap].
      destruct (asArray (heap st) data) as [arrayData|]; [|done].
      rewrite !bind_unfold.
      by rewrite (Array_map_ext _ (parseRelations config model (q1 ++ q2)))
        by (intros; by apply parseRelations_remove_unknown).
    - by apply parseRelations_remove_unknown. }
  split; [intros; by apply entry_unknown|].
  split; [intros; apply Hparser|].
  split; [|split; [intros; apply Hparser|]].
  - intros data st. unfold safeParse, tryCatch. by rewrite !bind_unfold, Hparser.
  - intros data st. unfold array_safeParse, tryCatch. by rewrite !bind_unfold, Hparser.
Qed.

(** C10 at a query with an entry [ghost] that names no relation of
    [user]. *)
Lemma unknown_relation_is_noop_witness :
  "ghost" <> "select"
  /\ relations sampleConfig !! "user" ≫= (fun mr => mr !! "ghost") = None
  /\ parse sampleConfig "user" ([selectId] ++ ("ghost", QBool true) :: [("posts", QBool true)])
       (VRef 0) userWithPosts
     = parse sampleConfig "user" ([selectId] ++ [("posts", QBool true)])
         (VRef 0) userWithPosts.
Proof.
  assert ("ghost" <> "select") as Hne by discriminate.
  assert (relations sampleConfig !! "user" ≫= (fun mr => mr !! "ghost") = None)
    as Hnone by (vm_compute; reflexivity).
  split; [exact Hne|]. split; [exact Hnone|].
  exact (proj1 (proj2 (unknown_relation_is_noop sampleConfig "user" [selectId]
                         "ghost" (QBool true) [("posts", QBool true)] Hne Hnone))
           (VRef 0) userWithPosts).
Defined.

(** * Further properties of the query engine *)

(** ** What a run may change in the store *)

Lemma frame_refl result st : frame result st st.
Proof. by split. Qed.

Lemma frame_trans result st1 st2 st3 :
  frame result st1 st2 -> frame result st2 st3 -> frame result st1 st3.
Proof.
  intros [Hlen1 Hsame1] [Hlen2 Hsame2]. split; [lia|].
  intros l' Hlt Hne. rewrite Hsame2 by (done || lia). by apply Hsame1.
Qed.

Lemma writesOnly_ret {A} result (a : A) : writesOnly result (ret a).
Proof. intros st r st' [= <- <-]. apply frame_refl. Qed.

Lemma writesOnly_throw {A} result e : writesOnly result (@throw A e).
Proof. intros st r st' [= <- <-]. apply frame_refl. Qed.

Lemma writesOnly_bind {A B} result (m : M A) (k : A -> M B) :
  writesOnly result m -> (forall a, writesOnly result (k a)) ->
  writesOnly result (bind m k).
Proof.
  intros Hm Hk st r st'. rewrite bind_unfold.
  destruct (m st) as [[a|e] st1] eqn:Hrun.
  - intros Hrun'. eapply frame_trans; [by eapply Hm|by eapply Hk].
  - intros [= <- <-]. by eapply Hm.
Qed.

Lemma writesOnly_callParse result name s v :
  writesOnly result (callParse name s v).
Proof.
  intros st r st'. unfold callParse.
  destruct (s (heap st) v) as [[new y]|e]; intros [= <- <-]; split; cbn;
    try done; [rewrite length_app; lia|].
  intros l' Hlt _. by apply lookup_app_l.
Qed.

Lemma writesOnly_allocArray result ys : writesOnly result (allocArray ys).
Proof.
  intros st r st' [= <- <-]. split; cbn; [rewrite length_app; lia|].
  intros l' Hlt _. by apply lookup_app_l.
Qed.

Lemma writesOnly_setProp result key v : writesOnly result (setProp result key v).
Proof.
  intros st r st'. unfold setProp.
  destruct result as [| | | | |l]; try (intros [= <- <-]; apply frame_refl).
  destruct (heap st !! l) as [o|]; [|intros [= <- <-]; apply frame_refl].
  destruct (writable o key); intros [= <- <-]; [|apply frame_refl].
  split; cbn; [by rewrite length_insert|].
  intros l' _ Hne. apply list_lookup_insert_ne. congruence.
Qed.

Lemma writesOnly_Array_map result f xs :
  (forall x, writesOnly result (f x)) -> writesOnly result (Array_map f xs).
Proof.
  intros Hf. induction xs as [|x xs IH]; [apply writesOnly_ret|].
  cbn [Array_map]. apply writesOnly_bind; [done|]. intros y.
  apply writesOnly_bind; [done|]. intros ys. apply writesOnly_ret.
Qed.

Lemma writesOnly_forOf {A} result (body : A -> M unit) es :
  (forall e, writesOnly result (body e)) -> writesOnly result (forOf body es).
Proof.
  intros Hbody. induction es as [|e es IH]; [apply writesOnly_ret|].
  cbn [forOf]. by apply writesOnly_bind.
Qed.

Lemma writesOnly_relationCallback result config model key ty b rel :
  writesOnly result (relationCallback config model key ty b rel).
Proof.
  unfold relationCallback. destruct b; [apply writesOnly_ret|].
  destruct (modelSchemaOf config ty);
    [apply writesOnly_callParse|apply writesOnly_throw..].
Qed.

(** One iteration of the relation loop writes to the base object only. *)
Lemma writesOnly_parseRelationEntry config model item result entry :
  writesOnly result (parseRelationEntry config model item result entry).
Proof.
  unfold parseRelationEntry.
  destruct (String.eqb (fst entry) "select"); [apply writesOnly_ret|].
  apply writesOnly_bind; [intros st r st' [= <- <-]; apply frame_refl|].
  intros h. destruct (_ && _); [|apply writesOnly_ret].
  destruct (relations config !! model) as [mr|]; [|apply writesOnly_ret].
  destruct (relationTypeOf mr (fst entry)) as [ty|]; [|apply writesOnly_ret].
  destruct (asArray h (getProp h item (fst entry))) as [rels|].
  - apply writesOnly_bind;
      [apply writesOnly_Array_map; intros; apply writesOnly_relationCallback|].
    intros mapped. apply writesOnly_bind; [apply writesOnly_allocArray|].
    intros arr. apply writesOnly_setProp.
  - destruct (isNull _); [apply writesOnly_setProp|].
    destruct (relationHasSelectOrInclude _); [apply writesOnly_setProp|].
    destruct (modelSchemaOf config ty); [|apply writesOnly_throw..].
    apply writesOnly_bind; [apply writesOnly_callParse|].
    intros parsed. apply writesOnly_setProp.
Qed.

Lemma writesOnly_baseResult result config model query item :
  writesOnly result (baseResult config model query item).
Proof.
  unfold baseResult. destruct (hasSelect query); [apply writesOnly_ret|].
  destruct (modelSchemaOf config model);
    [apply writesOnly_callParse|apply writesOnly_throw..].
Qed.

(** A parse of one item never shrinks the store. *)
Lemma parseRelations_grows config model query item st r st' :
  parseRelations config model query item st = (r, st') ->
  length (heap st) <= length (heap st').
Proof.
  unfold parseRelations. destruct (_ || _); [by intros [= <- <-]|].
  rewrite bind_unfold.
  destruct (baseResult config model query item st) as [[result|e] st1] eqn:Hbase.
  - rewrite bind_unfold.
    destruct (forOf _ _ st1) as [[[]|e] st2] eqn:Hloop;
      intros [= <- <-];
      pose proof (writesOnly_baseResult result _ _ _ _ _ _ _ Hbase) as [H1 _];
      pose proof (writesOnly_forOf result _ _
                    (writesOnly_parseRelationEntry config model item result)
                    _ _ _ Hloop) as [H2 _]; lia.
  - intros [= <- <-].
    by pose proof (writesOnly_baseResult VNull _ _ _ _ _ _ _ Hbase) as [H1 _].
Qed.

Lemma entry_absent config model l o result key value st :
  heap st !! l = Some o ->
  props o !! key = None ->
  parseRelationEntry config model (VRef l) result (key, value) st = (Normal tt, st).
Proof.
  intros Hitem Hnone. unfold parseRelationEntry. cbn [fst snd].
  destruct (String.eqb key "select"); [done|].
  rewrite bind_unfold. cbn [getHeap]. unfold hasProperty. rewrite Hitem.
  rewrite bool_decide_eq_false_2; [by rewrite andb_false_r|].
  rewrite Hnone. by intros [? ?].
Qed.

Lemma forOf_absent config model l o result query :
  (forall key value, (key, value) ∈ query -> key <> "select" ->
                     props o !! key = None) ->
  forall st, heap st !! l = Some o ->
    forOf (parseRelationEntry config model (VRef l) result) query st
    = (Normal tt, st).
Proof.
  induction query as [|[key value] query IH]; intros Habs st Hitem; [done|].
  rewrite forOf_cons.
  assert (parseRelationEntry config model (VRef l) result (key, value) st
          = (Normal tt, st)) as ->.
  { destruct (String.eqb key "select") eqn:Hsel.
    - unfold parseRelationEntry. cbn [fst]. by rewrite Hsel.
    - eapply entry_absent; [done|]. apply (Habs key value); [left|].
      by apply String.eqb_neq. }
  apply IH; [|done]. intros k v Hin. apply (Habs k v). by right.
Qed.

Lemma Array_map_length f xs :
  forall st ys st', Array_map f xs st = (Normal ys, st') -> length ys = length xs.
Proof.
  induction xs as [|x xs IH]; intros st ys st'.
  - by intros [= <- <-].
  - rewrite Array_map_cons. destruct (f x st) as [[y|e] st1]; [|done].
    destruct (Array_map f xs st1) as [[ys'|e] st2] eqn:Hrest; [|done].
    intros [= <- <-]. cbn. f_equal. by eapply IH.
Qed.

Lemma Array_map_same f xs :
  (forall x st v st', f x st = (Normal v, st') -> v = x) ->
  forall st ys st', Array_map f xs st = (Normal ys, st') -> ys = xs.
Proof.
  intros Hf. induction xs as [|x xs IH]; intros st ys st'.
  - by intros [= <- <-].
  - rewrite Array_map_cons. destruct (f x st) as [[y|e] st1] eqn:Hx; [|done].
    destruct (Array_map f xs st1) as [[ys'|e] st2] eqn:Hrest; [|done].
    intros [= <- <-]. f_equal; [by eapply Hf|by eapply IH].
Qed.

Lemma Array_map_grows f xs :
  (forall x st r st', f x st = (r, st') -> length (heap st) <= length (heap st')) ->
  forall st r st', Array_map f xs st = (r, st') ->
                   length (heap st) <= length (heap st').
Proof.
  intros Hf. induction xs as [|x xs IH]; intros st r st'.
  - by intros [= <- <-].
  - rewrite Array_map_cons. destruct (f x st) as [[y|e] st1] eqn:Hx.
    + destruct (Array_map f xs st1) as [[ys'|e] st2] eqn:Hrest;
        intros [= <- <-]; pose proof (Hf _ _ _ _ Hx);
        pose proof (IH _ _ _ Hrest); lia.
    + intros [= <- <-]. by eapply Hf.
Qed.

Lemma spread_keep a b k :
  k ∉ map fst b ->
  qIn k (spread a b) = qIn k a /\ qGet (spread a b) k = qGet a k.
Proof.
  unfold spread. revert a. induction b as [|[k1 v1] b IH]; intros a Hk; [done|].
  cbn in Hk. apply not_elem_of_cons in Hk as [Hne Hk].
  cbn [fold_left fst snd]. destruct (IH (qSet k1 v1 a) Hk) as [-> ->].
  rewrite qIn_qSet, qGet_qSet.
  by rewrite (proj2 (String.eqb_neq k1 k)) by done.
Qed.

(** With the item as base object, an entry that is [select] or whose
    spec carries [select] or [include] completes without a validator call
    when the item's property under its key is not read-only; the item
    keeps its property names and its read-only names. *)
Lemma entry_trusted_total config model l o key value st :
  heap st !! l = Some o ->
  (key <> "select" -> relationHasSelectOrInclude value = true) ->
  (key <> "select" -> is_Some (props o !! key) -> key ∉ readonly o) ->
  exists st' o',
    parseRelationEntry config model (VRef l) (VRef l) (key, value) st
    = (Normal tt, st')
    /\ trace st' = trace st
    /\ heap st' !! l = Some o'
    /\ readonly o' = readonly o
    /\ forall k, is_Some (props o' !! k) <-> is_Some (props o !! k).
Proof.
  intros Hitem Hv Hw.
  destruct (String.eqb key "select") eqn:Hkey.
  { exists st, o. unfold parseRelationEntry. cbn [fst]. by rewrite Hkey. }
  specialize (Hv (proj1 (String.eqb_neq _ _) Hkey)).
  specialize (Hw (proj1 (String.eqb_neq _ _) Hkey)).
  destruct (props o !! key) as [raw|] eqn:Hraw;
    [|exists st, o; split; [by apply (entry_absent _ _ l o)|done]].
  destruct (relations config !! model) as [mr|] eqn:Hrels;
    [|exists st, o; split; [apply entry_unknown; by rewrite Hrels|done]].
  assert (writable o key = true) as Hwr by (eapply writable_own; eauto).
  assert (forall v k, is_Some (props (writeProp o key v) !! k)
                      <-> is_Some (props o !! k)) as Hdom.
  { intros v k. cbn. destruct (decide (key = k)) as [<-|Hne].
    - rewrite lookup_insert_eq, Hraw. split; eauto.
    - by rewrite lookup_insert_ne. }
  destruct (relationTypeOf mr key) as [ty|] eqn:Hty.
  - destruct (asArray (heap st) raw) as [rels|] eqn:Harr.
    + eexists _, _. split; [by eapply entry_trusted_array|]. split; [done|].
      cbn. split;
        [apply list_lookup_insert_eq; rewrite length_app;
         apply lookup_lt_Some in Hitem; lia|].
      split; [reflexivity|apply Hdom].
    + eexists _, _. split; [by eapply entry_trusted_single|]. split; [done|].
      cbn. split; [apply list_lookup_insert_eq; by eapply lookup_lt_Some|].
      split; [reflexivity|apply Hdom].
  - exists st, o. split; [|done].
    unfold parseRelationEntry. cbn [fst snd]. rewrite Hkey, bind_unfold.
    cbn [getHeap]. destruct (_ && _); [|done]. by rewrite Hrels, Hty.
Qed.

(** ** The extras on the parsers *)

(** X1. Under [select], whatever [parse] returns or throws, the only
    object of the store it may have changed is the raw item itself:
    every other object that existed before the call is as it was, and no
    object was removed. *)
Theorem parse_select_writes_item_only config model query item st r st' :
  hasSelect query = true ->
  parse config model query item st = (r, st') ->
  length (heap st) <= length (heap st')
  /\ forall l', l' < length (heap st) -> VRef l' <> item ->
                heap st' !! l' = heap st !! l'.
Proof.
  intros Hsel. unfold parse, createParser, parseRelations.
  destruct (_ || _); [intros [= <- <-]; apply frame_refl|].
  unfold baseResult. rewrite Hsel, bind_unfold. cbn [ret]. rewrite bind_unfold.
  destruct (forOf _ _ st) as [[[]|e] st1] eqn:Hloop; intros [= <- <-];
    exact (writesOnly_forOf item _ _
             (writesOnly_parseRelationEntry config model item item) _ _ _ Hloop).
Qed.

(** X1 at the user with one post, whose [posts] is validated in place:
    the sequence and the post of the raw value are untouched. *)
Lemma parse_select_writes_item_only_witness :
  hasSelect [selectId; ("posts", QBool true)] = true
  /\ (length (heap userWithPosts)
      <= length (heap (snd (parse sampleConfig "user"
                              [selectId; ("posts", QBool true)] (VRef 0)
                              userWithPosts)))
      /\ forall l', l' < length (heap userWithPosts) -> VRef l' <> VRef 0 ->
           heap (snd (parse sampleConfig "user" [selectId; ("posts", QBool true)]
                        (VRef 0) userWithPosts)) !! l'
           = heap userWithPosts !! l').
Proof.
  split; [reflexivity|].
  apply (parse_select_writes_item_only sampleConfig "user"
           [selectId; ("posts", QBool true)] (VRef 0) userWithPosts
           (fst (parse sampleConfig "user" [selectId; ("posts", QBool true)]
                   (VRef 0) userWithPosts))); [reflexivity|].
  apply surjective_pairing.
Defined.

(** X2. Without [select], when the model's validator returns a value
    that is not an object of the store it was called in (a new object, or
    a primitive), [parse] leaves every object of that store as it was,
    the raw item included, whatever it returns or throws. *)
Theorem parse_validated_leaves_store
    config model query l (s : Schema) new v st r st' :
  hasSelect query = false ->
  models config !! model = Some s ->
  s (heap st) (VRef l) = Normal (new, v) ->
  (forall l', v = VRef l' -> length (heap st) <= l') ->
  parse config model query (VRef l) st = (r, st') ->
  forall l', l' < length (heap st) -> heap st' !! l' = heap st !! l'.
Proof.
  intros Hsel Hs Hv Hfresh. rewrite parse_object.
  unfold baseResult. rewrite Hsel, (modelSchemaOf_Own _ _ _ Hs).
  unfold callParse at 1. rewrite Hv.
  destruct (forOf _ _ _) as [[[]|e] st1] eqn:Hloop; intros [= <- <-] l' Hlt;
    destruct (writesOnly_forOf v _ _
                (writesOnly_parseRelationEntry config model (VRef l) v)
                _ _ _ Hloop) as [_ Hsame]; cbn in Hsame;
    (rewrite Hsame;
     [by apply lookup_app_l
     |rewrite length_app; lia
     |intros <-; specialize (Hfresh l' eq_refl); lia]).
Qed.

(** X2 at the user with one post, parsed without [select]. *)
Lemma parse_validated_leaves_store_witness :
  hasSelect [("posts", QBool true)] = false
  /\ forall l', l' < length (heap userWithPosts) ->
       heap (snd (parse sampleConfig "user" [("posts", QBool true)] (VRef 0)
                    userWithPosts)) !! l'
       = heap userWithPosts !! l'.
Proof.
  split; [reflexivity|].
  apply (parse_validated_leaves_store sampleConfig "user"
           [("posts", QBool true)] 0 (objectSchema ["id"; "email"])
           [obj [("email", VStr "a@b.c"); ("id", VNum 1)]] (VRef 3)
           userWithPosts
           (fst (parse sampleConfig "user" [("posts", QBool true)] (VRef 0)
                   userWithPosts)));
    [reflexivity|reflexivity|vm_compute; reflexivity| |apply surjective_pairing].
  intros l' [= <-]. cbn. lia.
Defined.

(** X3. A raw value that is not an object ([null], [undefined], a
    boolean, a number or a string) makes [parse] throw the "Invalid data"
    validation error of the model, with [expected] "object" and
    [received] "null" for [null] and the [typeof] of the value otherwise,
    before any validator is called and without a change of state;
    [safeParse] returns that error as a failure. *)
Theorem parse_rejects_non_object config model query item st :
  (forall l, item <> VRef l) ->
  parse config model query item st
  = (Throw (ZodipusValidationError
              ("Invalid data for model " ++ dquote ++ model ++ dquote)
              (mkContext model None (Some "object")
                 (Some (match item with VNull => "null" | _ => typeof item end))
                 None)), st)
  /\ safeParse config model query item st
     = (Normal (Failure (invalidData model item)), st).
Proof.
  intros Hitem. unfold safeParse, tryCatch. rewrite bind_unfold.
  unfold parse, createParser, parseRelations.
  destruct item; try done. by destruct (Hitem l).
Qed.

Lemma parse_rejects_non_object_witness :
  (forall l, VNull <> VRef l)
  /\ parse sampleConfig "user" [] VNull userWithPosts
     = (Throw (ZodipusValidationError
                 ("Invalid data for model " ++ dquote ++ "user" ++ dquote)
                 (mkContext "user" None (Some "object") (Some "null") None)),
        userWithPosts)
  /\ safeParse sampleConfig "user" [] VNull userWithPosts
     = (Normal (Failure (invalidData "user" VNull)), userWithPosts).
Proof.
  assert (forall l, VNull <> VRef l) as Hne by discriminate.
  split; [exact Hne|].
  exact (parse_rejects_non_object sampleConfig "user" [] VNull userWithPosts Hne).
Defined.

(** X4. [array().parse] of an empty sequence returns a new empty
    sequence, calls no validator and changes no object, whatever the
    registry and the query; [array().safeParse] returns it as a
    success. *)
Theorem array_parse_empty config model query data st :
  asArray (heap st) data = Some [] ->
  array_parse config model query data st
  = (Normal (VRef (length (heap st))),
     mkState (heap st ++ [arrayObject []]) (trace st))
  /\ array_safeParse config model query data st
     = (Normal (Success (VRef (length (heap st)))),
        mkState (heap st ++ [arrayObject []]) (trace st)).
Proof.
  intros Hdata. unfold array_safeParse, tryCatch. rewrite bind_unfold.
  unfold array_parse, createParser. rewrite bind_unfold. cbn [getHeap].
  by rewrite Hdata.
Qed.

Lemma array_parse_empty_witness :
  asArray [arrayObject []] (VRef 0) = Some []
  /\ array_parse emptyConfig "ghost" [] (VRef 0) (mkState [arrayObject []] [])
     = (Normal (VRef 1), mkState [arrayObject []; arrayObject []] []).
Proof.
  split; [reflexivity|].
  exact (proj1 (array_parse_empty emptyConfig "ghost" [] (VRef 0)
                  (mkState [arrayObject []] []) eq_refl)).
Defined.

(** X5. When the raw object has none of the relation keys of the query,
    the relation loop does nothing: [parse] is the base step alone (the
    item itself under [select], the model's validation otherwise), no
    key is created and nothing is reported for the absent relations. *)
Theorem parse_without_present_relations config model query l o st :
  heap st !! l = Some o ->
  (forall key value, (key, value) ∈ query -> key <> "select" ->
                     props o !! key = None) ->
  parse config model query (VRef l) st
  = baseResult config model query (VRef l) st.
Proof.
  intros Hitem Habs. rewrite parse_object.
  destruct (baseResult config model query (VRef l) st) as [[result|e] st1]
    eqn:Hbase; [|done].
  destruct (writesOnly_baseResult VNull _ _ _ _ _ _ _ Hbase) as [_ Hsame].
  rewrite (forOf_absent config model l o result query Habs); [done|].
  rewrite Hsame; [done|by eapply lookup_lt_Some|done].
Qed.

Lemma parse_without_present_relations_witness :
  heap userWithoutProfile !! 0 = Some (obj [("id", VNum 1); ("profile", VNull)])
  /\ parse sampleConfig "user" [selectId; ("posts", QBool true)] (VRef 0)
       userWithoutProfile
     = (Normal (VRef 0), userWithoutProfile).
Proof.
  split; [reflexivity|].
  apply (parse_without_present_relations sampleConfig "user"
           [selectId; ("posts", QBool true)] 0
           (obj [("id", VNum 1); ("profile", VNull)]) userWithoutProfile);
    [reflexivity|].
  intros key value Hin Hne.
  apply elem_of_cons in Hin as [[= -> _]|Hin]; [done|].
  apply list_elem_of_singleton in Hin as [= -> _]. vm_compute. reflexivity.
Defined.

(** X6. Without [select], the model's validator is the first thing
    called on an object, and when it throws, [parse] throws that very
    error, unwrapped, after this one validator call and before any
    relation is looked at; [safeParse] returns it as a failure, wrapped
    in an [Error] if it was not one (and throws what the conversion to a
    string throws when that conversion fails). *)
Theorem parse_base_validation_fails config model query l (s : Schema) e st :
  hasSelect query = false ->
  models config !! model = Some s ->
  s (heap st) (VRef l) = Throw e ->
  parse config model query (VRef l) st
  = (Throw e, mkState (heap st) (trace st ++ [EvParse model (VRef l)]))
  /\ safeParse config model query (VRef l) st
     = (match asError e with
        | Normal err => Normal (Failure err)
        | Throw raised => Throw raised
        end,
        mkState (heap st) (trace st ++ [EvParse model (VRef l)])).
Proof.
  intros Hsel Hs He.
  assert (parse config model query (VRef l) st
          = (Throw e, mkState (heap st) (trace st ++ [EvParse model (VRef l)])))
    as Hparse.
  { rewrite parse_object. unfold baseResult.
    rewrite Hsel, (modelSchemaOf_Own _ _ _ Hs).
    unfold callParse. by rewrite He. }
  split; [done|]. unfold safeParse, tryCatch. rewrite bind_unfold.
  fold (parse config model query). rewrite Hparse. unfold failure.
  by destruct (asError e).
Qed.

Lemma parse_base_validation_fails_witness :
  hasSelect [("posts", QBool true)] = false
  /\ objectSchema ["id"; "email"] (heap threeUsers) (VRef 2)
     = Throw (ZodError "Required")
  /\ parse sampleConfig "user" [("posts", QBool true)] (VRef 2) threeUsers
     = (Throw (ZodError "Required"),
        mkState (heap threeUsers) (trace threeUsers ++ [EvParse "user" (VRef 2)]))
  /\ safeParse sampleConfig "user" [("posts", QBool true)] (VRef 2) threeUsers
     = (Normal (Failure (ZodError "Required")),
        mkState (heap threeUsers) (trace threeUsers ++ [EvParse "user" (VRef 2)])).
Proof.
  split; [reflexivity|]. split; [reflexivity|].
  exact (parse_base_validation_fails sampleConfig "user"
           [("posts", QBool true)] 2 (objectSchema ["id"; "email"])
           (ZodError "Required") threeUsers eq_refl eq_refl eq_refl).
Defined.

(** X7. Under [select] the parsers hand back the caller's own objects:
    [parse] returns the reference it was given, and [array().parse]
    returns a sequence of the references of its input, in the same
    order. *)
Theorem parse_select_same_references config model query :
  hasSelect query = true ->
  (forall item st v st',
     parse config model query item st = (Normal v, st') -> v = item)
  /\ (forall data xs st v st',
        asArray (heap st) data = Some xs ->
        array_parse config model query data st = (Normal v, st') ->
        asArray (heap st') v = Some xs).
Proof.
  intros Hsel. split.
  - intros item st v st'. by apply parseRelations_select_returns_item.
  - intros data xs st v st' Hdata. unfold array_parse, createParser.
    rewrite bind_unfold. cbn [getHeap]. rewrite Hdata, bind_unfold.
    destruct (Array_map _ xs st) as [[ys|e] st1] eqn:Hrun; [|done].
    intros [= <- <-].
    assert (ys = xs) as ->.
    { eapply Array_map_same; [|exact Hrun]. intros x st0 v0 st0'.
      by apply parseRelations_select_returns_item. }
    unfold asArray. cbn. rewrite lookup_app_r by lia.
    by rewrite Nat.sub_diag.
Qed.

Lemma parse_select_same_references_witness :
  hasSelect [selectId] = true
  /\ asArray (heap threeUsers) (VRef 0) = Some [VRef 1; VRef 2; VRef 3]
  /\ asArray
       (heap (snd (array_parse sampleConfig "user" [selectId] (VRef 0) threeUsers)))
       (VRef 4)
     = Some [VRef 1; VRef 2; VRef 3].
Proof.
  split; [reflexivity|]. split; [reflexivity|].
  apply (proj2 (parse_select_same_references sampleConfig "user" [selectId]
                  eq_refl)
           (VRef 0) [VRef 1; VRef 2; VRef 3] threeUsers (VRef 4));
    [reflexivity|vm_compute; reflexivity].
Defined.

(** X8. When [array().parse] returns, what it returns is a sequence that
    did not exist before the call (never the input sequence) and has as
    many elements as the input. *)
Theorem array_parse_new_sequence config model query data xs st v st' :
  asArray (heap st) data = Some xs ->
  array_parse config model query data st = (Normal v, st') ->
  exists a ys,
    v = VRef a
    /\ heap st !! a = None
    /\ asArray (heap st') v = Some ys
    /\ length ys = length xs.
Proof.
  intros Hdata. unfold array_parse, createParser.
  rewrite bind_unfold. cbn [getHeap]. rewrite Hdata, bind_unfold.
  destruct (Array_map _ xs st) as [[ys|e] st1] eqn:Hrun; [|done].
  intros [= <- <-]. exists (length (heap st1)), ys. split; [done|].
  split; [|split].
  - apply lookup_ge_None_2. eapply Array_map_grows; [|exact Hrun].
    intros x st0 r0 st0'. apply parseRelations_grows.
  - unfold asArray. cbn. rewrite lookup_app_r by lia.
    by rewrite Nat.sub_diag.
  - by eapply Array_map_length.
Qed.

Lemma array_parse_new_sequence_witness :
  asArray (heap threeUsers) (VRef 0) = Some [VRef 1; VRef 2; VRef 3]
  /\ exists a ys,
       VRef 4 = VRef a
       /\ heap threeUsers !! a = None
       /\ asArray
            (heap (snd (array_parse sampleConfig "user" [selectId] (VRef 0)
                          threeUsers))) (VRef 4) = Some ys
       /\ length ys = length [VRef 1; VRef 2; VRef 3].
Proof.
  split; [reflexivity|].
  apply (array_parse_new_sequence sampleConfig "user" [selectId] (VRef 0)
           [VRef 1; VRef 2; VRef 3] threeUsers (VRef 4));
    [reflexivity|vm_compute; reflexivity].
Defined.

Lemma parse_select_single_entry config model fields key value l st :
  parse config model [("select", QObject fields); (key, value)] (VRef l) st
  = match parseRelationEntry config model (VRef l) (VRef l) (key, value) st with
    | (Normal _, st') => (Normal (VRef l), st')
    | (Throw e, st') => (Throw e, st')
    end.
Proof.
  rewrite parse_object.
  change (baseResult config model [("select", QObject fields); (key, value)]
            (VRef l) st) with (Normal (VRef l), st).
  cbn iota. rewrite forOf_cons.
  change (parseRelationEntry config model (VRef l) (VRef l)
            ("select", QObject fields) st) with (Normal tt, st).
  cbn iota. rewrite forOf_cons.
  by destruct (parseRelationEntry _ _ _ _ _ _) as [[[]|e] st'].
Qed.

(** X9. A relation whose spec carries neither [select] nor [include] and
    whose target model has no schema in the registry (and is not a name
    that the registry inherits, such as [constructor]): under [select],
    with that one relation entry, [parse] throws "Model schema not found
    for relation" (context: the target model, the relation key, the path
    of model and key) without a change of state when the raw value is a
    non-null single value or a non-empty sequence; an empty sequence is
    accepted, and a new empty sequence is assigned if the item allows the
    assignment. *)
Theorem relation_schema_missing
    config model l o key raw mr ty value fields st :
  key <> "select" ->
  heap st !! l = Some o ->
  props o !! key = Some raw ->
  relations config !! model = Some mr ->
  relationTypeOf mr key = Some ty ->
  models config !! ty = None ->
  ty ∉ objectPrototypeNames ->
  relationHasSelectOrInclude value = false ->
  (asArray (heap st) raw = None -> isNull raw = false ->
   parse config model [("select", QObject fields); (key, value)] (VRef l) st
   = (Throw (ZodipusValidationError "Model schema not found for relation"
               (mkContext ty (Some key) None None (Some [model; key]))), st))
  /\ (forall x rels,
        asArray (heap st) raw = Some (x :: rels) ->
        parse config model [("select", QObject fields); (key, value)] (VRef l) st
        = (Throw (ZodipusValidationError "Model schema not found for relation"
                    (mkContext ty (Some key) None None (Some [model; key]))), st))
  /\ (asArray (heap st) raw = Some [] ->
      writable o key = true ->
      parse config model [("select", QObject fields); (key, value)] (VRef l) st
      = (Normal (VRef l),
         mkState (<[l := writeProp o key (VRef (length (heap st)))]>
                    (heap st ++ [arrayObject []]))
                 (trace st))).
Proof.
  intros Hne Hitem Hraw Hrels Hty Hnone Hname Hv.
  pose proof (modelSchemaOf_Missing _ _ Hnone Hname) as Hs.
  assert (String.eqb key "select" = false) as Hkey by by apply String.eqb_neq.
  pose proof (entry_known config model l o key raw mr ty st
                Hkey Hitem Hraw Hrels Hty (VRef l) value) as Hentry.
  split; [|split].
  - intros Harr Hnull. rewrite parse_select_single_entry.
    by rewrite Hentry, Harr, Hnull, Hv, Hs.
  - intros x rels Harr. rewrite parse_select_single_entry.
    rewrite Hentry, Harr, Hv, bind_unfold, Array_map_cons.
    unfold relationCallback at 1. by rewrite Hs.
  - intros Harr Hw. rewrite parse_select_single_entry.
    rewrite Hentry, Harr, bind_unfold. cbn [Array_map ret].
    rewrite bind_unfold. cbn [allocArray].
    by rewrite (setProp_writable l o) by (by apply lookup_app_l_Some || done).
Qed.

Lemma relation_schema_missing_witness :
  models (mkConfig ∅ sampleRelations) !! "post" = None
  /\ ("post" ∉ objectPrototypeNames)
  /\ relationHasSelectOrInclude (QBool true) = false
  /\ parse (mkConfig ∅ sampleRelations) "user"
       [("select", QObject [("id", QBool true)]); ("posts", QBool true)]
       (VRef 0) userWithSinglePosts
     = (Throw (ZodipusValidationError "Model schema not found for relation"
                 (mkContext "post" (Some "posts") None None
                    (Some ["user"; "posts"]))),
        userWithSinglePosts).
Proof.
  assert ("post" ∉ objectPrototypeNames) as Hname.
  { apply (bool_decide_unpack _). vm_compute. exact I. }
  split; [reflexivity|]. split; [exact Hname|]. split; [reflexivity|].
  apply (proj1 (relation_schema_missing (mkConfig ∅ sampleRelations) "user" 0
                  (obj [("id", VNum 1); ("posts", VRef 1)]) "posts" (VRef 1)
                  (<["posts" := mkRelationConfig "post" true
                                  (Some [("author", mkRelationConfig "user" false None)])]>
                   (<["profile" := mkRelationConfig "profile" false None]> ∅))
                  "post" (QBool true) [("id", QBool true)] userWithSinglePosts
                  ltac:(discriminate) eq_refl eq_refl eq_refl eq_refl eq_refl
                  Hname eq_refl));
    reflexivity.
Defined.

Lemma relationEntries_key q k :
  NoDup (map fst q) ->
  k ∈ map fst (relationEntries q) ->
  k <> "select" /\ exists v, (k, v) ∈ q.
Proof.
  intros Hnd. rewrite relationEntries_NoDup by done.
  intros Hin. apply list_elem_of_fmap in Hin as ([k' v] & -> & Hin).
  apply list_elem_of_filter in Hin as [Hne Hin]. cbn in *. eauto.
Qed.

(** X10. When the query has a [select] object, the compiled query is the
    [select] form and, at every key that is not a relation entry of the
    query, its map is the map of declared fields: every declared field
    that no relation entry shadows is in the compiled map with its
    declared value, and nothing else is added. *)
Theorem compiled_select_keeps_fields query fields :
  NoDup (map fst query) ->
  qIn "select" query = true ->
  qGet query "select" = QObject fields ->
  exists m,
    compiledQuery query = CSelect (QObject m)
    /\ forall f,
         (forall value, (f, value) ∈ query -> f = "select") ->
         qIn f m = qIn f fields /\ qGet m f = qGet fields f.
Proof.
  intros Hnd Hin Hget.
  exists (spread fields (relationEntries query)). split.
  - unfold compiledQuery, selectQuery, hasSelect. rewrite Hin, Hget. cbn.
    destruct (hasRelations query) eqn:Hrel; cbn; [done|].
    by rewrite (hasRelations_false _ Hrel).
  - intros f Hf. apply spread_keep. intros Hmem.
    destruct (relationEntries_key _ _ Hnd Hmem) as (Hne & v & Hv).
    by apply Hne, (Hf v).
Qed.

Lemma compiled_select_keeps_fields_witness :
  NoDup (map fst [("select", QObject [("id", QBool true); ("posts", QBool false)]);
                  ("posts", QBool true)])
  /\ exists m,
       compiledQuery [("select", QObject [("id", QBool true); ("posts", QBool false)]);
                      ("posts", QBool true)]
       = CSelect (QObject m)
       /\ forall f,
            (forall value,
               (f, value) ∈ [("select", QObject [("id", QBool true);
                                                  ("posts", QBool false)]);
                             ("posts", QBool true)] -> f = "select") ->
            qIn f m = qIn f [("id", QBool true); ("posts", QBool false)]
            /\ qGet m f = qGet [("id", QBool true); ("posts", QBool false)] f.
Proof.
  assert (NoDup (map fst [("select", QObject [("id", QBool true);
                                               ("posts", QBool false)]);
                          ("posts", QBool true)])) as Hnd.
  { apply (bool_decide_unpack _). vm_compute. exact I. }
  split; [exact Hnd|].
  exact (compiled_select_keeps_fields _ _ Hnd eq_refl eq_refl).
Defined.

Lemma forOf_trusted config model l query :
  (forall key value, (key, value) ∈ query -> key <> "select" ->
                     relationHasSelectOrInclude value = true) ->
  forall st o, heap st !! l = Some o ->
    (forall key value, (key, value) ∈ query -> key <> "select" ->
                       is_Some (props o !! key) -> key ∉ readonly o) ->
    exists st',
      forOf (parseRelationEntry config model (VRef l) (VRef l)) query st
      = (Normal tt, st')
      /\ trace st' = trace st.
Proof.
  induction query as [|[key value] query IH]; intros Hq st o Hitem Hw;
    [by exists st|].
  destruct (entry_trusted_total config model l o key value st Hitem)
    as (st1 & o1 & Hrun & Htr & Hitem1 & Hro & Hdom);
    [apply Hq; left|apply (Hw key value); left|].
  destruct (IH (fun k v Hin => Hq k v (list_elem_of_further _ _ _ Hin))
              st1 o1 Hitem1)
    as (st' & Hrest & Htr').
  { intros k v Hin Hne Hown. rewrite Hro.
    apply (Hw k v); [by right|done|by apply Hdom]. }
  exists st'. rewrite forOf_cons, Hrun. split; [done|congruence].
Qed.

(** X11. Under [select], when every relation entry of the query carries
    [select] or [include] and none of the item's properties that the
    query names is read-only, [parse] of an object never throws and never
    calls a validator: it returns the object it was given, whatever the
    registry holds and whatever the raw relations look like. *)
Theorem parse_trusted_never_validates config model query l o st :
  hasSelect query = true ->
  heap st !! l = Some o ->
  (forall key value, (key, value) ∈ query -> key <> "select" ->
                     relationHasSelectOrInclude value = true) ->
  (forall key value, (key, value) ∈ query -> key <> "select" ->
                     is_Some (props o !! key) -> key ∉ readonly o) ->
  exists st',
    parse config model query (VRef l) st = (Normal (VRef l), st')
    /\ trace st' = trace st.
Proof.
  intros Hsel Hitem Hq Hw. rewrite parse_object. unfold baseResult.
  rewrite Hsel. cbn [ret].
  destruct (forOf_trusted config model l query Hq st o Hitem Hw)
    as (st' & -> & Htr).
  by exists st'.
Qed.

Lemma parse_trusted_never_validates_witness :
  hasSelect [selectId; ("posts", includeAuthor)] = true
  /\ exists st',
       parse emptyConfig "user" [selectId; ("posts", includeAuthor)] (VRef 0)
         userWithBadPost = (Normal (VRef 0), st')
       /\ trace st' = trace userWithBadPost.
Proof.
  split; [reflexivity|].
  apply (parse_trusted_never_validates emptyConfig "user"
           [selectId; ("posts", includeAuthor)] 0
           (obj [("id", VNum 1); ("email", VStr "a@b.c"); ("posts", VRef 1)])
           userWithBadPost eq_refl eq_refl).
  - intros key value Hin Hne.
    apply elem_of_cons in Hin as [[= -> _]|Hin]; [done|].
    by apply list_elem_of_singleton in Hin as [= _ ->].
  - intros key value _ _ _. apply not_elem_of_empty.
Defined.

(** ** Sequences, boxed results and [null] relations *)

(** X22. [array().parse] stops at the first element on which the parser
    throws: over a sequence whose elements before index k parse and whose
    element k makes the parser throw, the call throws what element k
    threw, in the state element k left, and whatever follows element k
    plays no part in the outcome. *)
Theorem array_parse_short_circuit
    config model query data pre x post st ys st_k e st_f :
  asArray (heap st) data = Some (pre ++ x :: post) ->
  Array_map (parseRelations config model query) pre st = (Normal ys, st_k) ->
  parseRelations config model query x st_k = (Throw e, st_f) ->
  array_parse config model query data st = (Throw e, st_f)
  /\ forall data' post',
       asArray (heap st) data' = Some (pre ++ x :: post') ->
       array_parse config model query data' st = (Throw e, st_f).
Proof.
  intros Hdata Hpre Hx.
  assert (forall d p, asArray (heap st) d = Some (pre ++ x :: p) ->
                      array_parse config model query d st = (Throw e, st_f)) as Hgen.
  { intros d p Hd. unfold array_parse, createParser.
    rewrite bind_unfold. cbn [getHeap]. rewrite Hd, bind_unfold.
    by rewrite (Array_map_first_throw _ _ _ _ _ _ _ _ _ Hpre Hx). }
  split; [by eapply Hgen|]. intros d p. apply Hgen.
Qed.

(** X22 at three users of which the second lacks its [email]: the call
    throws after two validator calls; the third user is never passed to
    the validator. *)
Lemma array_parse_short_circuit_witness :
  asArray (heap threeUsers) (VRef 0) = Some ([VRef 1] ++ VRef 2 :: [VRef 3])
  /\ array_parse sampleConfig "user" [] (VRef 0) threeUsers
     = (Throw (ZodError "Required"), threeUsers_atFailure).
Proof.
  split; [reflexivity|].
  apply (array_parse_short_circuit sampleConfig "user" [] (VRef 0)
           [VRef 1] (VRef 2) [VRef 3] threeUsers [VRef 4]
           threeUsers_afterFirst (ZodError "Required") threeUsers_atFailure);
    vm_compute; reflexivity.
Defined.

(** Without [select] and with a validator for the model that never
    returns an object of the store it is called in, parsing one item
    leaves every object of the store as it was. *)
Lemma parseRelations_validated_frame config model query item :
  hasSelect query = false ->
  (forall (s : Schema) h x new v l',
     models config !! model = Some s -> s h x = Normal (new, v) ->
     v = VRef l' -> length h <= l') ->
  writesOnly VUndefined (parseRelations config model query item).
Proof.
  intros Hsel Hfresh st r st'. unfold parseRelations.
  destruct (_ || _); [intros [= <- <-]; apply frame_refl|].
  rewrite bind_unfold. unfold baseResult, modelSchemaOf. rewrite Hsel.
  destruct (models config !! model) as [s|] eqn:Hs;
    [|destruct (bool_decide _); intros [= <- <-]; apply frame_refl].
  unfold callParse at 1.
  destruct (s (heap st) item) as [[new v]|e] eqn:Hv;
    [|intros [= <- <-]; split; [done|by intros]].
  rewrite bind_unfold.
  destruct (forOf _ _ _) as [[[]|e] st1] eqn:Hloop; intros [= <- <-];
    destruct (writesOnly_forOf v _ _
                (writesOnly_parseRelationEntry config model item v)
                _ _ _ Hloop) as [Hlen Hsame]; cbn in Hlen, Hsame;
    rewrite length_app in Hlen, Hsame;
    (split; [lia|]; intros l' Hlt _;
     rewrite Hsame;
     [by apply lookup_app_l
     |lia
     |intros <-; specialize (Hfresh s _ _ _ _ l' eq_refl Hv eq_refl); lia]).
Qed.

(** X23. Without [select], when the model's validator never returns an
    object of the store it is called in (it returns new objects or
    primitives), [array().parse] leaves every object that existed before
    the call as it was, whether it returns or throws: what was built for
    the elements before a failing one is in new objects only. *)
Theorem array_parse_validated_leaves_store config model query data st r st' :
  hasSelect query = false ->
  (forall (s : Schema) h x new v l',
     models config !! model = Some s -> s h x = Normal (new, v) ->
     v = VRef l' -> length h <= l') ->
  array_parse config model query data st = (r, st') ->
  length (heap st) <= length (heap st')
  /\ forall l', l' < length (heap st) -> heap st' !! l' = heap st !! l'.
Proof.
  intros Hsel Hfresh Hrun.
  assert (writesOnly VUndefined (array_parse config model query data)) as Hw.
  { unfold array_parse, createParser.
    apply writesOnly_bind; [intros st0 r0 st0' [= <- <-]; apply frame_refl|].
    intros h. destruct (asArray h data) as [arrayData|];
      [|apply writesOnly_throw].
    apply writesOnly_bind; [|intros; apply writesOnly_allocArray].
    apply writesOnly_Array_map. intros x.
    by apply parseRelations_validated_frame. }
  destruct (Hw _ _ _ Hrun) as [Hlen Hsame]. split; [done|].
  intros l' Hlt. by apply Hsame.
Qed.

(** X23 at the three users with posts, parsed without [select]: the call
    throws at the post of the second user, and the ten objects of the
    caller are as they were. *)
Lemma array_parse_validated_leaves_store_witness :
  hasSelect [("posts", QBool true)] = false
  /\ fst (array_parse sampleConfig "user" [("posts", QBool true)] (VRef 0)
            usersWithPosts) = Throw (ZodError "Required")
  /\ forall l', l' < length (heap usersWithPosts) ->
       heap (snd (array_parse sampleConfig "user" [("posts", QBool true)]
                    (VRef 0) usersWithPosts)) !! l'
       = heap usersWithPosts !! l'.
Proof.
  split; [reflexivity|]. split; [vm_compute; reflexivity|].
  apply (array_parse_validated_leaves_store sampleConfig "user"
           [("posts", QBool true)] (VRef 0) usersWithPosts
           (fst (array_parse sampleConfig "user" [("posts", QBool true)]
                   (VRef 0) usersWithPosts)));
    [reflexivity| |apply surjective_pairing].
  intros s h x new v l' Hs Hv ->.
  assert (models sampleConfig !! "user" = Some (objectSchema ["id"; "email"]))
    as Hm by reflexivity.
  rewrite Hm in Hs. injection Hs as <-.
  unfold objectSchema in Hv. destruct x as [| | | | |lx]; try done.
  destruct (h !! lx) as [[m [xs|] ext ro]|]; try done.
  destruct (forallb _ _); [|done]. by injection Hv as _ <-.
Defined.

(** X24. What the boxed parsers return. [safeParse] returns
    [{success: true, data}] exactly when [parse] returns, with the data
    [parse] returns and in the state [parse] ends in; it returns
    [{success: false, error}] exactly when [parse] throws an [Error], which
    is then the error, or a value that [String] converts, which is then
    wrapped in a new [Error]; and it throws exactly when [parse] throws a
    value on which that conversion throws, and then it throws what the
    conversion threw. The same holds of [array().safeParse] and
    [array().parse]. *)
Theorem safeParse_boxes_parse config model query data st :
  ((forall v st',
      safeParse config model query data st = (Normal (Success v), st') <->
      parse config model query data st = (Normal v, st'))
   /\ (forall err st',
         safeParse config model query data st = (Normal (Failure err), st') <->
         exists e, parse config model query data st = (Throw e, st')
                   /\ asError e = Normal err)
   /\ (forall raised st',
         safeParse config model query data st = (Throw raised, st') <->
         exists e, parse config model query data st = (Throw e, st')
                   /\ asError e = Throw raised))
  /\
  ((forall v st',
      array_safeParse config model query data st = (Normal (Success v), st') <->
      array_parse config model query data st = (Normal v, st'))
   /\ (forall err st',
         array_safeParse config model query data st = (Normal (Failure err), st') <->
         exists e, array_parse config model query data st = (Throw e, st')
                   /\ asError e = Normal err)
   /\ (forall raised st',
         array_safeParse config model query data st = (Throw raised, st') <->
         exists e, array_parse config model query data st = (Throw e, st')
                   /\ asError e = Throw raised)).
Proof.
  split.
  - apply (boxed_spec (createParser config model query false data)).
  - apply (boxed_spec (createParser config model query true data)).
Qed.

(** X25. A relation of the model whose raw value is [null]: the
    iteration of the relation loop calls no validator, whatever the
    relation's spec and cardinality; when the base object allows the
    assignment, [null] is what is read at the relation's key afterwards
    and no other object has changed; when it refuses, the iteration
    throws the [TypeError] of the assignment and changes nothing. Under
    [select], where the base object is the item, parsing with that one
    relation entry returns the item with [null] at the key, unless the
    item's property is read-only. *)
Theorem null_relation_assigned config model l o key mr d lr ro value st :
  key <> "select" ->
  relations config !! model = Some mr ->
  mr !! key = Some d ->
  rel_type d <> "" ->
  heap st !! l = Some o ->
  props o !! key = Some VNull ->
  heap st !! lr = Some ro ->
  (writable ro key = true ->
   exists st',
     parseRelationEntry config model (VRef l) (VRef lr) (key, value) st
     = (Normal tt, st')
     /\ trace st' = trace st
     /\ getProp (heap st') (VRef lr) key = VNull
     /\ forall l', l' <> lr -> heap st' !! l' = heap st !! l')
  /\ (writable ro key = false ->
      parseRelationEntry config model (VRef l) (VRef lr) (key, value) st
      = (Throw (assignmentRefused ro key), st))
  /\ (key ∉ readonly o ->
      forall fields, exists st',
        parse config model [("select", QObject fields); (key, value)] (VRef l) st
        = (Normal (VRef l), st')
        /\ trace st' = trace st
        /\ getProp (heap st') (VRef l) key = VNull).
Proof.
  intros Hne Hrels Hd Hty Hitem Hraw Hres.
  assert (String.eqb key "select" = false) as Hkey by by apply String.eqb_neq.
  assert (relationTypeOf mr key = Some (rel_type d)) as Htype.
  { unfold relationTypeOf. rewrite Hd.
    by rewrite (proj2 (String.eqb_neq _ _) Hty). }
  split; [|split].
  - intros Hw. eexists. split; [by eapply entry_null|]. split; [done|]. cbn.
    split; [by apply getProp_written|].
    intros l' Hl'. by apply list_lookup_insert_ne.
  - intros Hw. by eapply entry_null_refused.
  - intros Hro fields. rewrite parse_select_single_entry.
    rewrite (entry_null config model l o key VNull mr (rel_type d) st
               Hkey Hitem Hraw Hrels Htype l o value eq_refl Hitem)
      by (by eapply writable_own).
    eexists. split; [done|]. split; [done|]. cbn. by apply getProp_written.
Qed.

(** X25 at a user whose [profile] is [null], with a nested spec for
    [profile]. *)
Lemma null_relation_assigned_witness :
  getProp (heap userWithoutProfile) (VRef 0) "profile" = VNull
  /\ relationHasSelectOrInclude includeAuthor = true
  /\ writable (obj [("id", VNum 1); ("profile", VNull)]) "profile" = true
  /\ exists st',
       parseRelationEntry sampleConfig "user" (VRef 0) (VRef 0)
         ("profile", includeAuthor) userWithoutProfile = (Normal tt, st')
       /\ trace st' = trace userWithoutProfile
       /\ getProp (heap st') (VRef 0) "profile" = VNull
       /\ forall l', l' <> 0 -> heap st' !! l' = heap userWithoutProfile !! l'.
Proof.
  assert (writable (obj [("id", VNum 1); ("profile", VNull)]) "profile" = true)
    as Hw by (vm_compute; reflexivity).
  split; [reflexivity|]. split; [reflexivity|]. split; [exact Hw|].
  apply (proj1 (null_relation_assigned sampleConfig "user" 0
                  (obj [("id", VNum 1); ("profile", VNull)]) "profile"
                  (<["posts" := mkRelationConfig "post" true
                                  (Some [("author", mkRelationConfig "user" false None)])]>
                   (<["profile" := mkRelationConfig "profile" false None]> ∅))
                  (mkRelationConfig "profile" false None) 0
                  (obj [("id", VNum 1); ("profile", VNull)]) includeAuthor
                  userWithoutProfile
                  ltac:(discriminate) eq_refl eq_refl ltac:(discriminate)
                  eq_refl eq_refl eq_refl));
    exact Hw.
Defined.

(** * Properties of the generator *)

(** ** Names *)

Lemma toLowerCaseChar_idempotent c :
  toLowerCaseChar (toLowerCaseChar c) = toLowerCaseChar c.
Proof. destruct c as [[] [] [] [] [] [] [] []]; reflexivity. Qed.

(** X12. [toCamelCase] is idempotent, keeps the length of the name and
    changes nothing after its first character; on the empty name it
    returns the empty name. A relation map keyed by camel-cased model
    names is therefore stable under camel-casing its keys again. *)
Theorem toCamelCase_idempotent str :
  toCamelCase (toCamelCase str) = toCamelCase str
  /\ String.length (toCamelCase str) = String.length str
  /\ (forall n, 0 < n -> String.get n (toCamelCase str) = String.get n str)
  /\ toCamelCase "" = "".
Proof.
  destruct str as [|c rest]; [by repeat split|]. cbn [toCamelCase].
  rewrite toLowerCaseChar_idempotent. repeat split.
  intros [|n] Hn; [lia|done].
Qed.

(** ** Annotations *)

Lemma append_cons c a b :
  (String c a ++ b)%string = String c (a ++ b)%string.
Proof. reflexivity. Qed.

Lemma append_nil b : ("" ++ b)%string = b.
Proof. reflexivity. Qed.

Lemma append_assoc a b c :
  ((a ++ b) ++ c)%string = (a ++ (b ++ c))%string.
Proof. induction a as [|x a IH]; [done|]. by rewrite !append_cons, IH. Qed.

Lemma stripPrefix_Some p s r : stripPrefix p s = Some r -> s = (p ++ r)%string.
Proof.
  revert s. induction p as [|a p IH]; intros s; cbn; [by intros [= ->]|].
  destruct s as [|b s]; [done|].
  destruct (Ascii.eqb a b) eqn:Hab; [|done].
  apply Ascii.eqb_eq in Hab as ->. intros Hs. by rewrite (IH _ Hs).
Qed.

Lemma stripPrefix_app p r : stripPrefix p (p ++ r)%string = Some r.
Proof.
  induction p as [|a p IH]; [done|].
  rewrite append_cons. cbn [stripPrefix]. by rewrite Ascii.eqb_refl.
Qed.

Lemma matchAnnotation_not_at c s :
  negb (Ascii.eqb c atSign) = true -> matchAnnotation (String c s) = None.
Proof.
  intros Hc. unfold matchAnnotation.
  change (stripPrefix "@zodSchema" (String c s))
    with (if Ascii.eqb atSign c then stripPrefix "zodSchema" s else None).
  rewrite Ascii.eqb_sym. by destruct (Ascii.eqb c atSign).
Qed.

Lemma take_drop_while p s : s = (takeWhile p s ++ dropWhile p s)%string.
Proof.
  induction s as [|c s IH]; [done|]. cbn. destruct (p c); [|done].
  rewrite append_cons. by f_equal.
Qed.

Lemma allChars_takeWhile p s : allChars p (takeWhile p s) = true.
Proof.
  induction s as [|c s IH]; [done|]. cbn. destruct (p c) eqn:Hc; [|done].
  cbn. by rewrite Hc.
Qed.

Lemma startsWith_dropWhile p s : startsWith p (dropWhile p s) = false.
Proof.
  induction s as [|c s IH]; [done|]. cbn. by destruct (p c) eqn:Hc.
Qed.

Lemma takeWhile_app p s r :
  allChars p s = true -> startsWith p r = false -> takeWhile p (s ++ r)%string = s.
Proof.
  intros Hs Hr. induction s as [|c s IH].
  - rewrite append_nil. destruct r as [|c r]; [done|]. cbn in Hr |- *.
    by rewrite Hr.
  - cbn [allChars] in Hs. apply andb_true_iff in Hs as [Hc Hs].
    rewrite append_cons. cbn [takeWhile]. by rewrite Hc, IH.
Qed.

Lemma dropWhile_app p s r :
  allChars p s = true -> startsWith p r = false -> dropWhile p (s ++ r)%string = r.
Proof.
  intros Hs Hr. induction s as [|c s IH].
  - rewrite append_nil. destruct r as [|c r]; [done|]. cbn in Hr |- *.
    by rewrite Hr.
  - cbn [allChars] in Hs. apply andb_true_iff in Hs as [Hc Hs].
    rewrite append_cons. cbn [dropWhile]. by rewrite Hc, IH.
Qed.

Lemma isWord_not_isSpace c : isWord c = true -> isSpace c = false.
Proof. destruct c as [[] [] [] [] [] [] [] []]; cbn; done. Qed.

Lemma matchAnnotation_Some s name :
  matchAnnotation s = Some name ->
  exists ws rest,
    s = ("@zodSchema" ++ ws ++ name ++ rest)%string
    /\ ws <> "" /\ allChars isSpace ws = true
    /\ name <> "" /\ allChars isWord name = true
    /\ startsWith isWord rest = false.
Proof.
  unfold matchAnnotation.
  destruct (stripPrefix "@zodSchema" s) as [r|] eqn:Hpre; [|done].
  apply stripPrefix_Some in Hpre as ->.
  destruct (takeWhile isSpace r) as [|c ws] eqn:Hws; [done|].
  destruct (takeWhile isWord (dropWhile isSpace r)) as [|d nm] eqn:Hname; [done|].
  intros [= <-].
  exists (String c ws), (dropWhile isWord (dropWhile isSpace r)).
  split; [|repeat split; try done].
  - do 2 f_equal. rewrite <- Hws, <- Hname.
    rewrite <- take_drop_while. apply take_drop_while.
  - rewrite <- Hws. apply allChars_takeWhile.
  - rewrite <- Hname. apply allChars_takeWhile.
  - apply startsWith_dropWhile.
Qed.

Lemma searchAnnotation_Some s name :
  searchAnnotation s = Some name ->
  exists pre ws rest,
    s = (pre ++ "@zodSchema" ++ ws ++ name ++ rest)%string
    /\ ws <> "" /\ allChars isSpace ws = true
    /\ name <> "" /\ allChars isWord name = true
    /\ startsWith isWord rest = false.
Proof.
  induction s as [|c s IH]; cbn [searchAnnotation].
  - destruct (matchAnnotation "") eqn:Hm; [|done]. intros [= <-].
    destruct (matchAnnotation_Some _ _ Hm) as (ws & rest & H). by exists "", ws, rest.
  - destruct (matchAnnotation (String c s)) eqn:Hm.
    + intros [= <-]. destruct (matchAnnotation_Some _ _ Hm) as (ws & rest & H).
      by exists "", ws, rest.
    + intros Hs. destruct (IH Hs) as (pre & ws & rest & -> & H).
      by exists (String c pre), ws, rest.
Qed.

Lemma searchAnnotation_no_at s :
  allChars (fun c => negb (Ascii.eqb c atSign)) s = true ->
  searchAnnotation s = None.
Proof.
  induction s as [|c s IH]; [done|]. cbn [allChars searchAnnotation].
  intros [Hc Hs]%andb_true_iff.
  by rewrite matchAnnotation_not_at, IH.
Qed.

(** X13. [extractCustomSchema] returns [null] for an undefined or empty
    documentation and for one without an at sign. When it returns a name,
    the documentation holds the literal "@zodSchema" followed by at least
    one white-space character and then the name; the name is not empty,
    is made of word characters only, and is not followed by a word
    character (it is the whole identifier). *)
Theorem extractCustomSchema_sound :
  extractCustomSchema None = None
  /\ extractCustomSchema (Some "") = None
  /\ (forall d, allChars (fun c => negb (Ascii.eqb c atSign)) d = true ->
                extractCustomSchema (Some d) = None)
  /\ (forall documentation name,
        extractCustomSchema documentation = Some name ->
        exists d pre ws rest,
          documentation = Some d
          /\ d = (pre ++ "@zodSchema" ++ ws ++ name ++ rest)%string
          /\ ws <> "" /\ allChars isSpace ws = true
          /\ name <> "" /\ allChars isWord name = true
          /\ startsWith isWord rest = false).
Proof.
  split; [done|]. split; [done|]. split.
  - intros [|c d] Hd; [done|]. by apply searchAnnotation_no_at.
  - intros [[|c d]|] name; [done| |done]. cbn [extractCustomSchema].
    intros Hs. destruct (searchAnnotation_Some _ _ Hs) as (pre & ws & rest & H).
    by exists (String c d), pre, ws, rest.
Qed.

(** X14. The first annotation wins: for a documentation made of a text
    without an at sign, then "@zodSchema", white space, an identifier and
    anything that does not continue the identifier (a later annotation
    included), [extractCustomSchema] returns that identifier. *)
Theorem extractCustomSchema_first pre ws name rest :
  allChars (fun c => negb (Ascii.eqb c atSign)) pre = true ->
  ws <> "" -> allChars isSpace ws = true ->
  name <> "" -> allChars isWord name = true ->
  startsWith isWord rest = false ->
  extractCustomSchema (Some (pre ++ "@zodSchema" ++ ws ++ name ++ rest)%string)
  = Some name.
Proof.
  intros Hpre Hws Hspace Hname Hword Hrest.
  assert (matchAnnotation ("@zodSchema" ++ ws ++ name ++ rest)%string = Some name)
    as Hmatch.
  { unfold matchAnnotation. rewrite stripPrefix_app.
    assert (startsWith isSpace (name ++ rest)%string = false) as Hstart.
    { destruct name as [|c nm]; [done|]. cbn in Hword |- *.
      apply andb_true_iff in Hword as [Hc _]. by apply isWord_not_isSpace. }
    rewrite takeWhile_app, dropWhile_app, takeWhile_app by done.
    destruct ws; [done|]. by destruct name. }
  assert (searchAnnotation (pre ++ "@zodSchema" ++ ws ++ name ++ rest)%string
          = Some name) as Hsearch.
  { induction pre as [|c pre IH].
    - rewrite append_nil.
      destruct ("@zodSchema" ++ ws ++ name ++ rest)%string eqn:Hd;
        cbn [searchAnnotation]; by rewrite Hmatch.
    - cbn [allChars] in Hpre. apply andb_true_iff in Hpre as [Hc Hpre].
      rewrite append_cons. cbn [searchAnnotation].
      by rewrite matchAnnotation_not_at, IH. }
  destruct pre; exact Hsearch.
Qed.

Lemma extractCustomSchema_first_witness :
  allChars isSpace "   " = true
  /\ allChars isWord "First" = true
  /\ startsWith isWord " @zodSchema Second" = false
  /\ extractCustomSchema
       (Some ("/// " ++ "@zodSchema" ++ "   " ++ "First" ++ " @zodSchema Second")%string)
     = Some "First".
Proof.
  split; [reflexivity|]. split; [reflexivity|]. split; [reflexivity|].
  apply (extractCustomSchema_first "/// " "   " "First" " @zodSchema Second");
    try reflexivity; discriminate.
Defined.

(** ** Objects kept as their entries *)

Lemma assocGet_assocSet {A} key (v : A) o key' :
  assocGet (assocSet key v o) key'
  = if String.eqb key key' then Some v else assocGet o key'.
Proof.
  induction o as [|[k w] o IH]; cbn; [done|].
  destruct (String.eqb k key) eqn:E1; cbn.
  - apply String.eqb_eq in E1 as ->. by destruct (String.eqb key key').
  - rewrite IH. destruct (String.eqb k key') eqn:E2; [|done].
    apply String.eqb_eq in E2 as ->. by rewrite String.eqb_sym, E1.
Qed.

Lemma assocSet_Forall {A} (P : A -> Prop) key v (o : list (string * A)) :
  P v -> Forall (fun e => P (snd e)) o ->
  Forall (fun e => P (snd e)) (assocSet key v o).
Proof.
  intros Hv. induction 1 as [|[k w] o Hw Ho IH]; cbn; [by repeat constructor|].
  destruct (String.eqb k key); constructor; done.
Qed.

Lemma assocSet_not_nil {A} key (v : A) o : assocSet key v o <> [].
Proof. destruct o as [|[k w] o]; cbn; [done|]. by destruct (String.eqb k key). Qed.

Section FieldFold.
Context {A : Type} (g : Field -> A).

Lemma fieldStep_Forall (P : A -> Prop) fields :
  (forall f, f ∈ fields -> isObjectField f = true -> P (g f)) ->
  forall acc, Forall (fun e => P (snd e)) acc ->
    Forall (fun e => P (snd e)) (fold_left (fieldStep g) fields acc).
Proof.
  induction fields as [|f fields IH]; intros Hg acc Hacc; [done|].
  cbn [fold_left]. apply IH; [intros f' Hin; apply Hg; by right|].
  unfold fieldStep. destruct (isObjectField f) eqn:Hf; [|done].
  apply assocSet_Forall; [|done]. apply Hg; [left|done].
Qed.

Lemma fieldStep_other fields key :
  (forall f, f ∈ fields -> isObjectField f = true -> field_name f <> key) ->
  forall acc, assocGet (fold_left (fieldStep g) fields acc) key = assocGet acc key.
Proof.
  induction fields as [|f fields IH]; intros Hne acc; [done|].
  cbn [fold_left]. rewrite IH by (intros f' Hin; apply Hne; by right).
  unfold fieldStep. destruct (isObjectField f) eqn:Hf; [|done].
  rewrite assocGet_assocSet.
  by rewrite (proj2 (String.eqb_neq _ _) (Hne f ltac:(left) Hf)).
Qed.

Lemma fieldStep_get fields f :
  NoDup (map field_name (filter (fun f => isObjectField f = true) fields)) ->
  f ∈ fields -> isObjectField f = true ->
  forall acc,
    assocGet (fold_left (fieldStep g) fields acc) (field_name f) = Some (g f).
Proof.
  induction fields as [|f' fields IH]; intros Hnd Hin Hf acc;
    [by apply elem_of_nil in Hin|].
  cbn [fold_left]. rewrite filter_cons in Hnd.
  apply elem_of_cons in Hin as [->|Hin].
  - rewrite decide_True in Hnd by done. cbn in Hnd.
    apply list.NoDup_cons in Hnd as [Hfresh _].
    rewrite fieldStep_other.
    + unfold fieldStep. rewrite Hf, assocGet_assocSet.
      by rewrite String.eqb_refl.
    + intros f0 Hin0 Hf0 Heq. apply Hfresh. rewrite <- Heq.
      apply list_elem_of_fmap. exists f0. split; [done|].
      by apply list_elem_of_filter.
  - apply IH; [|done|done].
    destruct (decide (isObjectField f' = true)); [|done].
    cbn in Hnd. by apply list.NoDup_cons in Hnd as [_ Hnd].
Qed.

Lemma fieldStep_nil fields :
  (forall f, f ∈ fields -> isObjectField f = false) ->
  forall acc, fold_left (fieldStep g) fields acc = acc.
Proof.
  induction fields as [|f fields IH]; intros Hno acc; [done|].
  cbn [fold_left]. rewrite IH by (intros f' Hin; apply Hno; by right).
  unfold fieldStep. by rewrite (Hno f) by left.
Qed.
End FieldFold.

Lemma extractForModel_S dmmfModels maxDepth fuel modelName depth visited :
  extractForModel dmmfModels maxDepth (S fuel) modelName depth visited
  = if exceeds depth maxDepth || bool_decide (modelName ∈ visited) then []
    else
      match modelMapOf dmmfModels !! modelName with
      | None => []
      | Some model =>
          fold_left
            (fieldStep
               (fun field =>
                  mkRelationConfig (toCamelCase (field_type field))
                    (field_isList field)
                    (nestedField
                       (extractForModel dmmfModels maxDepth fuel
                          (field_type field) (S depth)
                          (visited ∪ {[modelName]})))))
            (model_fields model) []
      end.
Proof. reflexivity. Qed.

Lemma fold_left_ext {A B} (f g : A -> B -> A) l :
  (forall a b, b ∈ l -> f a b = g a b) ->
  forall a, fold_left f l a = fold_left g l a.
Proof.
  induction l as [|b l IH]; intros Hfg a; [done|].
  cbn. rewrite Hfg by left. apply IH. intros a' b' Hin. apply Hfg. by right.
Qed.

(** ** Termination of the extractor *)

Lemma modelMapOf_size_aux ms (m : gmap string Model) :
  size (fold_left (fun m md => <[model_name md := md]> m) ms m)
  <= size m + length ms.
Proof.
  revert m. induction ms as [|md ms IH]; intros m; cbn; [lia|].
  etrans; [apply IH|]. rewrite map_size_insert.
  destruct (m !! model_name md); unfold id; lia.
Qed.

Lemma modelMapOf_size ms : size (modelMapOf ms) <= length ms.
Proof.
  unfold modelMapOf. etrans; [apply modelMapOf_size_aux|].
  by rewrite map_size_empty.
Qed.

(** Once every known model is on the path, a call returns at once. *)
Lemma extractForModel_cut ms md fuel name depth visited :
  size (dom (modelMapOf ms) ∖ visited) = 0 ->
  extractForModel ms md fuel name depth visited = [].
Proof.
  intros Hsize. destruct fuel as [|fuel]; [done|].
  rewrite extractForModel_S.
  destruct (exceeds depth md); [done|]. cbn [orb].
  destruct (bool_decide (name ∈ visited)) eqn:Hvis; [done|].
  apply bool_decide_eq_false in Hvis.
  destruct (modelMapOf ms !! name) as [model|] eqn:Hmodel; [|done].
  apply size_empty_iff in Hsize.
  assert (name ∈ dom (modelMapOf ms) ∖ visited) as Hin.
  { apply elem_of_difference. split; [|done]. apply elem_of_dom. by exists model. }
  apply Hsize in Hin. by apply elem_of_empty in Hin.
Qed.

Lemma extractForModel_fuel ms md f1 :
  forall f2 name depth visited,
    size (dom (modelMapOf ms) ∖ visited) <= f1 ->
    size (dom (modelMapOf ms) ∖ visited) <= f2 ->
    extractForModel ms md f1 name depth visited
    = extractForModel ms md f2 name depth visited.
Proof.
  induction f1 as [|f1 IH]; intros f2 name depth visited H1 H2.
  { rewrite !extractForModel_cut; [done|lia|lia]. }
  destruct f2 as [|f2]; [rewrite !extractForModel_cut; [done|lia|lia]|].
  rewrite !extractForModel_S.
  destruct (exceeds depth md); [done|]. cbn [orb].
  destruct (bool_decide (name ∈ visited)) eqn:Hvis; [done|].
  apply bool_decide_eq_false in Hvis.
  destruct (modelMapOf ms !! name) as [model|] eqn:Hmodel; [|done].
  assert (size (dom (modelMapOf ms) ∖ (visited ∪ {[name]}))
          < size (dom (modelMapOf ms) ∖ visited)) as Hless.
  { assert (name ∈ dom (modelMapOf ms)) as Hdom
      by (apply elem_of_dom; by exists model).
    apply subset_size. split.
    - intros x [Hx Hn]%elem_of_difference. apply elem_of_difference.
      split; [done|]. intros Hv. apply Hn, elem_of_union. by left.
    - intros Hsub.
      assert (name ∈ dom (modelMapOf ms) ∖ visited) as Hin
        by by apply elem_of_difference.
      apply Hsub, elem_of_difference in Hin as [_ Hn].
      apply Hn, elem_of_union. right. by apply elem_of_singleton. }
  apply fold_left_ext. intros acc f _. unfold fieldStep.
  destruct (isObjectField f); [|done].
  by rewrite (IH f2) by lia.
Qed.

Lemma extractForModel_visited ms md fuel name depth visited :
  name ∈ visited -> extractForModel ms md fuel name depth visited = [].
Proof.
  intros Hin. destruct fuel as [|fuel]; [done|]. rewrite extractForModel_S.
  by rewrite (bool_decide_eq_true_2 _ Hin), orb_true_r.
Qed.

Lemma extractForModel_bound ms visited :
  size (dom (modelMapOf ms) ∖ visited) <= length ms.
Proof.
  etrans; [apply subseteq_size|].
  - intros x Hx. by apply elem_of_difference in Hx as [Hx _].
  - rewrite size_dom. apply modelMapOf_size.
Qed.

(** X15. The recursion of the extractor ends by itself, whatever the
    depth limit (a [NaN] limit included): each nested call puts one more
    model on the path, so a call needs at most as many nested calls as
    there are models, and more fuel than the number of models changes
    nothing in the result. *)
Theorem extractForModel_enough_fuel
    dmmfModels maxDepth fuel modelName depth visited :
  length dmmfModels <= fuel ->
  extractForModel dmmfModels maxDepth fuel modelName depth visited
  = extractForModel dmmfModels maxDepth (length dmmfModels) modelName depth
      visited.
Proof.
  intros Hfuel. apply extractForModel_fuel.
  - etrans; [apply extractForModel_bound|done].
  - apply extractForModel_bound.
Qed.

Lemma extractForModel_enough_fuel_witness :
  length blogModels <= 40
  /\ extractForModel blogModels None 40 "User" 0 ∅
     = extractForModel blogModels None (length blogModels) "User" 0 ∅.
Proof.
  assert (length blogModels <= 40) as Hle by (cbn; lia).
  split; [exact Hle|].
  exact (extractForModel_enough_fuel blogModels None 40 "User" 0 ∅ Hle).
Defined.

(** ** The shape of what the extractor returns *)

Lemma levelsOf_nested t a es :
  levelsOf (mkRelationConfig t a (nestedField es)) = mapLevels es.
Proof.
  assert (forall l,
            levelsOf (mkRelationConfig t a (Some l))
            = S (list_max (map (fun e => levelsOf (snd e)) l))) as Hsome.
  { intros l. cbn [levelsOf]. f_equal.
    induction l as [|[k r] l IH]; [done|]. simpl. by rewrite IH. }
  destruct es as [|e es]; [done|]. cbn [nestedField]. apply Hsome.
Qed.

Lemma mapLevels_le es n :
  Forall (fun e => levelsOf (snd e) <= n) es -> mapLevels es <= S n.
Proof.
  intros Hall. destruct es as [|e es]; [cbn; lia|].
  unfold mapLevels. apply le_n_S, list_max_le.
  by apply Forall_map.
Qed.

Lemma extractForModel_levels ms m fuel :
  forall name depth visited,
    mapLevels (extractForModel ms (Some m) fuel name depth visited)
    <= Z.to_nat (m + 1 - Z.of_nat depth).
Proof.
  induction fuel as [|fuel IH]; intros name depth visited; [cbn; lia|].
  rewrite extractForModel_S. cbn [exceeds].
  destruct (m <? Z.of_nat depth)%Z eqn:Hcut; [cbn; lia|]. cbn [orb].
  destruct (bool_decide _); [cbn; lia|].
  destruct (modelMapOf ms !! name) as [model|]; [|cbn; lia].
  apply Z.ltb_ge in Hcut.
  replace (Z.to_nat (m + 1 - Z.of_nat depth))
    with (S (Z.to_nat (m + 1 - Z.of_nat (S depth)))) by lia.
  apply mapLevels_le.
  apply (fieldStep_Forall _
           (fun d => levelsOf d <= Z.to_nat (m + 1 - Z.of_nat (S depth))));
    [|constructor].
  intros f _ _. rewrite levelsOf_nested. apply IH.
Qed.

Lemma nestedNonEmpty_nested t a es :
  Forall (fun e => nestedNonEmpty (snd e) = true) es ->
  nestedNonEmpty (mkRelationConfig t a (nestedField es)) = true.
Proof.
  intros Hall.
  assert (forall l,
            Forall (fun e => nestedNonEmpty (snd e) = true) l ->
            nestedNonEmpty (mkRelationConfig t a (Some l))
            = match l with [] => false | _ => true end) as Hsome.
  { intros l Hl. cbn [nestedNonEmpty].
    assert ((fix go (es : list (string * RelationConfig)) : bool :=
               match es with
               | [] => true
               | (_, r') :: rest => nestedNonEmpty r' && go rest
               end) l = true) as ->; [|apply andb_true_r].
    induction Hl as [|[k r] rest Hr _ IH]; [done|]. cbn in Hr. simpl.
    by rewrite Hr. }
  destruct es as [|e es]; [done|]. cbn [nestedField]. by rewrite Hsome.
Qed.

Lemma extractForModel_nestedNonEmpty ms md fuel :
  forall name depth visited,
    Forall (fun e => nestedNonEmpty (snd e) = true)
      (extractForModel ms md fuel name depth visited).
Proof.
  induction fuel as [|fuel IH]; intros name depth visited; [constructor|].
  rewrite extractForModel_S.
  destruct (_ || _); [constructor|].
  destruct (modelMapOf ms !! name) as [model|]; [|constructor].
  apply (fieldStep_Forall _ (fun d => nestedNonEmpty d = true)); [|constructor].
  intros f _ _. apply nestedNonEmpty_nested, IH.
Qed.

Lemma assocSet_Forall_entry {A} (P : string * A -> Prop) key v o :
  P (key, v) -> Forall P o -> Forall P (assocSet key v o).
Proof.
  intros Hv. induction 1 as [|[k w] o Hw Ho IH]; cbn; [by repeat constructor|].
  destruct (String.eqb k key) eqn:Hk; constructor; try done.
  by apply String.eqb_eq in Hk as ->.
Qed.

(** Every entry of the relation map comes from a model of the schema. *)
Lemma extractRelations_entries ms md :
  Forall
    (fun e =>
       exists model,
         model ∈ ms
         /\ fst e = toCamelCase (model_name model)
         /\ snd e = extractForModel ms md (length ms) (model_name model) 0 ∅
         /\ snd e <> [])
    (extractRelationsFromDMMF ms md).
Proof.
  unfold extractRelationsFromDMMF.
  assert (forall l acc,
            (forall x, x ∈ l -> x ∈ ms) ->
            Forall
              (fun e =>
                 exists model,
                   model ∈ ms
                   /\ fst e = toCamelCase (model_name model)
                   /\ snd e = extractForModel ms md (length ms)
                                (model_name model) 0 ∅
                   /\ snd e <> []) acc ->
            Forall
              (fun e =>
                 exists model,
                   model ∈ ms
                   /\ fst e = toCamelCase (model_name model)
                   /\ snd e = extractForModel ms md (length ms)
                                (model_name model) 0 ∅
                   /\ snd e <> [])
              (fold_left
                 (fun relations model =>
                    match extractForModel ms md (length ms) (model_name model) 0 ∅
                    with
                    | [] => relations
                    | _ :: _ =>
                        assocSet (toCamelCase (model_name model))
                          (extractForModel ms md (length ms) (model_name model) 0 ∅)
                          relations
                    end) l acc)) as Hgen.
  { induction l as [|x l IH]; intros acc Hsub Hacc; [done|].
    cbn [fold_left]. apply IH; [intros y Hy; apply Hsub; by right|].
    destruct (extractForModel ms md (length ms) (model_name x) 0 ∅)
      as [|e es] eqn:Hx; [done|].
    apply assocSet_Forall_entry; [|done].
    exists x. cbn. repeat split; [apply Hsub; left|done|done]. }
  apply Hgen; [done|constructor].
Qed.

(** X16. With an integer depth limit [m], a relation map of the
    extractor has at most [m + 1] levels of nesting, counted from the
    depth of the call; every model's map in the result of
    [extractRelationsFromDMMF] has at most [m + 1] levels, and with a
    negative limit the result is empty. *)
Theorem extractRelations_depth_bound dmmfModels m :
  (forall fuel name depth visited,
     mapLevels (extractForModel dmmfModels (Some m) fuel name depth visited)
     <= Z.to_nat (m + 1 - Z.of_nat depth))
  /\ (forall key rels,
        (key, rels) ∈ extractRelationsFromDMMF dmmfModels (Some m) ->
        mapLevels rels <= Z.to_nat (m + 1))
  /\ ((m < 0)%Z -> extractRelationsFromDMMF dmmfModels (Some m) = []).
Proof.
  split; [intros; apply extractForModel_levels|].
  assert (forall key rels,
            (key, rels) ∈ extractRelationsFromDMMF dmmfModels (Some m) ->
            mapLevels rels <= Z.to_nat (m + 1)) as Hrels.
  { intros key rels Hin.
    pose proof (extractRelations_entries dmmfModels (Some m)) as Hall.
    rewrite list.Forall_forall in Hall.
    destruct (Hall _ Hin) as (model & _ & _ & Heq & _). cbn in Heq.
    rewrite Heq. etrans; [apply extractForModel_levels|]. lia. }
  split; [done|]. intros Hneg.
  destruct (extractRelationsFromDMMF dmmfModels (Some m)) as [|[key rels] rest]
    eqn:Hres; [done|].
  pose proof (extractRelations_entries dmmfModels (Some m)) as Hall.
  rewrite Hres in Hall. apply list.Forall_cons in Hall as [(model & _ & _ & _ & Hne) _].
  specialize (Hrels key rels ltac:(left)).
  cbn in Hne. destruct rels; [done|]. cbn in Hrels. lia.
Qed.

(** X17. Every entry of the result of [extractRelationsFromDMMF] is the
    relation map of a model of the schema under the camel-cased name of
    that model; the map is not empty, and no descriptor in it, at any
    depth, carries an empty nested map: a model or a relation without
    relations is left out rather than listed with an empty map. *)
Theorem extractRelations_no_empty_map dmmfModels maxDepth key rels :
  (key, rels) ∈ extractRelationsFromDMMF dmmfModels maxDepth ->
  (exists model,
     model ∈ dmmfModels
     /\ key = toCamelCase (model_name model)
     /\ rels = extractForModel dmmfModels maxDepth (length dmmfModels)
                 (model_name model) 0 ∅)
  /\ rels <> []
  /\ forall name d, (name, d) ∈ rels -> nestedNonEmpty d = true.
Proof.
  intros Hin.
  pose proof (extractRelations_entries dmmfModels maxDepth) as Hall.
  rewrite list.Forall_forall in Hall.
  destruct (Hall _ Hin) as (model & Hmodel & Hkey & Hrels & Hne). cbn in *.
  split; [by exists model|]. split; [done|].
  intros name d Hd.
  pose proof (extractForModel_nestedNonEmpty dmmfModels maxDepth
                (length dmmfModels) (model_name model) 0 ∅) as Hnested.
  rewrite <- Hrels, list.Forall_forall in Hnested. by apply (Hnested (name, d)).
Qed.

Lemma extractRelations_no_empty_map_witness :
  ("post",
   [("author", mkRelationConfig "user" false
                 (Some [("posts", mkRelationConfig "post" true None)]));
    ("related", mkRelationConfig "post" true None)])
  ∈ extractRelationsFromDMMF blogModels (Some 5%Z)
  /\ forall name d,
       (name, d) ∈ [("author", mkRelationConfig "user" false
                                 (Some [("posts", mkRelationConfig "post" true None)]));
                    ("related", mkRelationConfig "post" true None)] ->
       nestedNonEmpty d = true.
Proof.
  assert (("post",
           [("author", mkRelationConfig "user" false
                         (Some [("posts", mkRelationConfig "post" true None)]));
            ("related", mkRelationConfig "post" true None)])
          ∈ extractRelationsFromDMMF blogModels (Some 5%Z)) as Hin.
  { vm_compute. right. left. }
  split; [exact Hin|].
  exact (proj2 (proj2 (extractRelations_no_empty_map blogModels (Some 5%Z) _ _ Hin))).
Defined.

(** X18. For a model that the extractor expands (known, not yet on the
    path, within the depth limit) and whose relation fields have
    distinct names, every relation field is listed under its name with
    the camel-cased target model, the field's [isList] as cardinality,
    and the target's own relation map one level deeper with the model
    added to the path. A relation back to the model itself, or to a model
    already on the path, gets no nested map: cycles of the schema are cut
    at their first repetition. *)
Theorem extractForModel_relation_fields
    dmmfModels maxDepth fuel modelName depth visited model f :
  size (dom (modelMapOf dmmfModels) ∖ visited) <= fuel ->
  exceeds depth maxDepth = false ->
  modelName ∉ visited ->
  modelMapOf dmmfModels !! modelName = Some model ->
  NoDup (map field_name
           (filter (fun f => isObjectField f = true) (model_fields model))) ->
  f ∈ model_fields model ->
  isObjectField f = true ->
  assocGet (extractForModel dmmfModels maxDepth fuel modelName depth visited)
    (field_name f)
  = Some (mkRelationConfig (toCamelCase (field_type f)) (field_isList f)
            (nestedField
               (extractForModel dmmfModels maxDepth fuel (field_type f)
                  (S depth) (visited ∪ {[modelName]}))))
  /\ (field_type f ∈ visited ∪ {[modelName]} ->
      assocGet (extractForModel dmmfModels maxDepth fuel modelName depth visited)
        (field_name f)
      = Some (mkRelationConfig (toCamelCase (field_type f)) (field_isList f)
                None)).
Proof.
  intros Hfuel Hdepth Hvis Hmodel Hnd Hin Hobj.
  assert (size (dom (modelMapOf dmmfModels) ∖ (visited ∪ {[modelName]}))
          < size (dom (modelMapOf dmmfModels) ∖ visited)) as Hless.
  { assert (modelName ∈ dom (modelMapOf dmmfModels)) as Hdom
      by (apply elem_of_dom; by exists model).
    apply subset_size. split.
    - intros x [Hx Hn]%elem_of_difference. apply elem_of_difference.
      split; [done|]. intros Hv. apply Hn, elem_of_union. by left.
    - intros Hsub.
      assert (modelName ∈ dom (modelMapOf dmmfModels) ∖ visited) as Hin'
        by by apply elem_of_difference.
      apply Hsub, elem_of_difference in Hin' as [_ Hn].
      apply Hn, elem_of_union. right. by apply elem_of_singleton. }
  assert (assocGet
            (extractForModel dmmfModels maxDepth fuel modelName depth visited)
            (field_name f)
          = Some (mkRelationConfig (toCamelCase (field_type f)) (field_isList f)
                    (nestedField
                       (extractForModel dmmfModels maxDepth fuel (field_type f)
                          (S depth) (visited ∪ {[modelName]}))))) as Hget.
  { destruct fuel as [|fuel]; [lia|].
    rewrite extractForModel_S, Hdepth, Hmodel. cbn [orb].
    rewrite bool_decide_eq_false_2 by done.
    rewrite (fieldStep_get _ _ f Hnd Hin Hobj).
    by rewrite (extractForModel_fuel dmmfModels maxDepth fuel (S fuel)) by lia. }
  split; [done|]. intros Hback.
  by rewrite Hget, extractForModel_visited.
Qed.

(** X18 at the schema of users and posts: [Post.related] refers to
    [Post] itself and is listed without a nested map. *)
Lemma extractForModel_relation_fields_witness :
  field_type (mkField "related" KObject "Post" true) ∈ (∅ ∪ {["Post"]} : gset string)
  /\ assocGet (extractForModel blogModels (Some 5%Z) 3 "Post" 0 ∅)
       (field_name (mkField "related" KObject "Post" true))
     = Some (mkRelationConfig "post" true None).
Proof.
  pose (post := mkModel "Post"
                  [ mkField "id" KScalar "String" false;
                    mkField "author" KObject "User" false;
                    mkField "related" KObject "Post" true ]).
  pose (related := mkField "related" KObject "Post" true).
  assert (field_type related ∈ (∅ ∪ {["Post"]} : gset string)) as Hback.
  { apply elem_of_union. right. by apply elem_of_singleton. }
  assert (size (dom (modelMapOf blogModels) ∖ (∅ : gset string)) <= 3) as Hfuel
    by (vm_compute; lia).
  assert (modelMapOf blogModels !! "Post" = Some post) as Hmodel
    by (vm_compute; reflexivity).
  assert (NoDup (map field_name
            (filter (fun f => isObjectField f = true) (model_fields post)))) as Hnd
    by (apply (bool_decide_unpack _); vm_compute; exact I).
  assert (related ∈ model_fields post) as Hin by (right; right; left).
  split; [exact Hback|].
  pose proof (extractForModel_relation_fields blogModels (Some 5%Z) 3 "Post"
                  0 ∅ post related Hfuel eq_refl (not_elem_of_empty _) Hmodel Hnd Hin eq_refl) as [_ H].
  exact (H Hback).
Defined.

(** * Properties of the type mapping and of the error message *)

(** X19. An enum type always maps to its name followed by [Schema], even
    when the name is that of a scalar type, and the configuration matters
    for [DateTime] fields only: for an enum type, for any type other than
    [DateTime], and for two configurations with the same date format, the
    validator text is the same. *)
Theorem mapPrismaTypeToZod_config fieldType enumNames config config' :
  (fieldType ∈ enumNames ->
   mapPrismaTypeToZod fieldType enumNames config = fieldType +:+ "Schema")
  /\ (fieldType ∈ enumNames \/ fieldType <> "DateTime"
      \/ dateFormat config = dateFormat config' ->
      mapPrismaTypeToZod fieldType enumNames config
      = mapPrismaTypeToZod fieldType enumNames config').
Proof.
  unfold mapPrismaTypeToZod. split.
  - intros Hin. by rewrite bool_decide_eq_true_2.
  - intros Hcase. destruct (bool_decide (fieldType ∈ enumNames)) eqn:Henum; [done|].
    apply bool_decide_eq_false in Henum.
    destruct (String.eqb fieldType "DateTime") eqn:Hdate.
    + apply String.eqb_eq in Hdate as ->.
      destruct Hcase as [Hin|[Hne|Heq]]; [done|done|]. by rewrite Heq.
    + repeat (destruct (String.eqb fieldType _); [done|]). done.
Qed.

(** X20. The message of a validation error is the given message followed
    by the context in parentheses, which always starts with the model; a
    context entry that is an empty string, or an empty path, is left out
    exactly like an absent one. The error [parse] throws for a raw value
    that is not an object therefore reads
    [Invalid data for model "m" (Model: m, Expected: object, Received: t)],
    with [t] the string "null" for [null] and the [typeof] of the value
    otherwise. *)
Theorem validationErrorMessage_shape message context :
  (exists rest,
     validationErrorMessage message context
     = message +:+ " (Model: " +:+ ctx_model context +:+ rest)
  /\ validationErrorMessage message (withoutEmpty context)
     = validationErrorMessage message context
  /\ forall model item,
       match invalidData model item with
       | ZodipusValidationError msg ctx =>
           validationErrorMessage msg ctx
           = msg +:+ " (Model: " +:+ model +:+ ", Expected: object, Received: "
             +:+ (if isNull item then "null" else typeof item) +:+ ")"
       | _ => False
       end.
Proof.
  split; [|split].
  - unfold validationErrorMessage, contextParts.
    match goal with |- context [omap id (Some ?x :: ?l)] =>
      change (omap id (Some x :: l)) with (x :: omap id l);
      destruct (omap id l) as [|p ps] end.
    + exists ")". cbn [joinWith]. by rewrite append_assoc.
    + exists (", " +:+ joinWith ", " (p :: ps) +:+ ")").
      change (joinWith ", " (?x :: p :: ps))
        with (x +:+ ", " +:+ joinWith ", " (p :: ps)).
      by rewrite !append_assoc.
  - unfold validationErrorMessage, contextParts, withoutEmpty. cbn.
    destruct context as [m [[|? ?]|] [[|? ?]|] [[|? ?]|] [[|? ?]|]]; reflexivity.
  - intros model item. unfold invalidData, validationErrorMessage, contextParts.
    cbn [ctx_model ctx_field ctx_expected ctx_received ctx_path].
    assert ((if isNull item then "null" else typeof item) <> "") as Hr
      by (destruct item; done).
    destruct (if isNull item then "null" else typeof item) as [|c r]; [done|].
    cbn [labelled pathPart omap list_omap id joinWith].
    by rewrite !append_assoc.
Qed.

(** X21. A [select] entry whose value is falsy ([undefined] or [false])
    counts as no [select] at all: the compiled query is the [include]
    form over the relation entries, it has no [select] key, and the
    parsers validate the raw item with the model's schema (the schema is
    looked up, reported as not found if the registry has none, and its
    [parse] is called). *)
Theorem falsy_select_is_dropped query :
  truthy (qGet query "select") = false ->
  compiledQuery query = CInclude (QObject (relationEntries query))
  /\ qIn "select" (relationEntries query) = false
  /\ forall config model item,
       baseResult config model query item
       = match modelSchemaOf config model with
         | Missing =>
             throw (ZodipusValidationError "Model schema not found"
                      (mkContext model None None None None))
         | Inherited => throw (TypeError "modelSchema.parse is not a function")
         | Own modelSchema => callParse model modelSchema item
         end.
Proof.
  intros Hfalsy.
  assert (hasSelect query = false) as Hsel
    by (unfold hasSelect; rewrite Hfalsy; apply andb_false_r).
  split; [|split].
  - unfold compiledQuery, includeQuery. rewrite Hsel. cbn.
    destruct (hasRelations query) eqn:Hrel; [done|].
    by rewrite (hasRelations_false _ Hrel).
  - unfold relationEntries, fromEntries.
    apply (spread_keep [] _ "select"). intros Hin.
    apply list_elem_of_fmap in Hin as (e & Heq & Hin).
    by apply list_elem_of_filter in Hin as [Hne _].
  - intros config model item. unfold baseResult. by rewrite Hsel.
Qed.

Lemma falsy_select_is_dropped_witness :
  truthy (qGet [("select", QUndefined); ("posts", QBool true)] "select") = false
  /\ compiledQuery [("select", QUndefined); ("posts", QBool true)]
     = CInclude (QObject [("posts", QBool true)]).
Proof.
  split; [reflexivity|].
  exact (proj1 (falsy_select_is_dropped
                  [("select", QUndefined); ("posts", QBool true)] eq_refl)).
Defined.
